(** * go-oled-controller: system statistics from TypePerf (Windows edition)

    A shallow embedding of [sysstats_windows.go]: the two goroutines
    [typeperf] (counter source) and [SystemStats] (aggregator), together
    with the parts of the Go standard library they call ([strings],
    [strconv], [time], [bufio], float64 arithmetic).

    Conventions.
    - A Go [string] is a sequence of bytes: Rocq's [string] of [ascii].
    - A [float64] is an IEEE 754 binary64 number, modelled by the
      standard library's [spec_float] at precision 53 and maximal
      exponent 1024; every operation rounds to nearest even.
    - A slice indexed or stored into is a [list] with stdpp's lookup and
      insert; a store out of range is a run-time panic and is written out.
    - A goroutine is a function from what its environment does (which
      case of a [select] fires, what the subprocess prints, whether a
      call fails) to the trace of events the goroutine performs, in
      program order. *)

From Stdlib Require Import ZArith SpecFloat Ascii String DecimalString.
From stdpp Require Import base tactics option list strings.

Local Open Scope Z_scope.

(* ===================================================================== *)
(** * float64 *)
(* ===================================================================== *)

Module Float64.

Definition prec : Z := 53.
Definition emax : Z := 1024.

Definition float64 : Type := spec_float.

Definition zero : float64 := S754_zero false.

(** [float64(n)] for an integer [n]. *)
Definition of_Z (n : Z) : float64 := binary_normalize prec emax n 0 false.

Definition add (x y : float64) : float64 := SFadd prec emax x y.
Definition div (x y : float64) : float64 := SFdiv prec emax x y.

(** The quotient [n / d] of two positive integers, rounded once. *)
Definition of_ratio (neg : bool) (n d : positive) : float64 :=
  let '(mz, ez, lz) := SFdiv_core_binary prec emax (Zpos n) 0 (Zpos d) 0 in
  binary_round_aux prec emax neg mz ez lz.

(** [m * 2^e], rounded once. *)
Definition of_binary (neg : bool) (m : Z) (e : Z) : float64 :=
  match m with
  | Zpos p => binary_round prec emax neg p e
  | _ => S754_zero neg
  end.

(** [m * 10^e], rounded once: the value of a decimal literal. *)
Definition of_decimal (neg : bool) (m : Z) (e : Z) : float64 :=
  match m with
  | Zpos p =>
      if 0 <=? e then binary_round prec emax neg (p * Z.to_pos (10 ^ e)) 0
      else of_ratio neg p (Z.to_pos (10 ^ (- e)))
  | _ => S754_zero neg
  end.

(** The integer part of [x] (rounding toward zero); [None] for NaN and
    the infinities. *)
Definition trunc (x : float64) : option Z :=
  match x with
  | S754_zero _ => Some 0
  | S754_finite s m e =>
      let a := if 0 <=? e then Z.shiftl (Zpos m) e else Z.shiftr (Zpos m) (- e) in
      Some (if s then - a else a)
  | _ => None
  end.

Definition is_infinite (x : float64) : bool :=
  match x with S754_infinity _ => true | _ => false end.

End Float64.

Abbreviation float64 := Float64.float64.

(* ===================================================================== *)
(** * Package strings *)
(* ===================================================================== *)

Definition dquote : ascii := "034"%char.
Definition CR : ascii := "013"%char.
Definition LF : ascii := "010"%char.
Definition crlf : string := String CR (String LF EmptyString).

(** A field as TypePerf prints it: the text between double quotes. *)
Definition quoted (s : string) : string :=
  String dquote (s +:+ String dquote EmptyString).

Module Strings.

(** [strings.TrimLeft(s, cutset)] for a cutset of one byte. *)
Fixpoint TrimLeft (s : string) (c : ascii) : string :=
  match s with
  | String a rest => if Ascii.eqb a c then TrimLeft rest c else s
  | EmptyString => EmptyString
  end.

(** [strings.TrimRight(s, cutset)] for a cutset of one byte. *)
Fixpoint TrimRight (s : string) (c : ascii) : string :=
  match s with
  | String a rest =>
      match TrimRight rest c with
      | EmptyString => if Ascii.eqb a c then EmptyString else String a EmptyString
      | rest' => String a rest'
      end
  | EmptyString => EmptyString
  end.

(** [strings.TrimSuffix(s, suffix)]. *)
Fixpoint TrimSuffix (s suffix : string) : string :=
  if String.eqb s suffix then EmptyString
  else match s with
       | String a rest => String a (TrimSuffix rest suffix)
       | EmptyString => EmptyString
       end.

(** [strings.Split(s, sep)] for a separator of one byte: the pieces
    between the separators, always at least one. *)
Fixpoint Split (s : string) (sep : ascii) : list string :=
  match s with
  | EmptyString => [EmptyString]
  | String a rest =>
      if Ascii.eqb a sep then EmptyString :: Split rest sep
      else match Split rest sep with
           | piece :: pieces => String a piece :: pieces
           | [] => [String a EmptyString]
           end
  end.

End Strings.

(* ===================================================================== *)
(** * Package strconv *)
(* ===================================================================== *)

Module Strconv.

(** [strconv.Itoa]: the decimal text of an integer. *)
Definition Itoa (i : Z) : string := NilZero.string_of_int (Z.to_int i).

Definition code (c : ascii) : Z := Z.of_N (N_of_ascii c).

(** [lower(c)] is [c | ('x' - 'X')]: the lower-case letter of an ASCII
    letter. *)
Definition lower (c : ascii) : ascii := ascii_of_N (N.lor (N_of_ascii c) 32).

Definition is_digit (c : ascii) : bool := (48 <=? code c) && (code c <=? 57).
Definition digit_val (c : ascii) : Z := code c - 48.
Definition is_hex_letter (c : ascii) : bool :=
  (97 <=? code (lower c)) && (code (lower c) <=? 102).
Definition hex_letter_val (c : ascii) : Z := code (lower c) - 97 + 10.

(** Upper-case ASCII letters to lower case, as the case-insensitive
    prefix comparison of [special] does. *)
Definition fold_case (c : ascii) : ascii :=
  if (65 <=? code c) && (code c <=? 90)
  then ascii_of_N (N_of_ascii c + 32) else c.

Fixpoint fold_cases (s : string) : string :=
  match s with
  | String c rest => String (fold_case c) (fold_cases rest)
  | EmptyString => EmptyString
  end.

Definition inf_word (s : string) : bool :=
  String.eqb (fold_cases s) "inf" || String.eqb (fold_cases s) "infinity".

(** [special]: the words for the infinities (with an optional sign)
    and for NaN (without), matched against the whole string. *)
Definition special (s : string) : option float64 :=
  match s with
  | String "+" rest => if inf_word rest then Some (S754_infinity false) else None
  | String "-" rest => if inf_word rest then Some (S754_infinity true) else None
  | _ =>
      if String.eqb (fold_cases s) "nan" then Some S754_nan
      else if inf_word s then Some (S754_infinity false)
      else None
  end.

(** What [readFloat] has seen of the mantissa: the integer its digits
    spell, how many of them follow the point, and its flags. *)
Record mantissa : Type := Mantissa {
  mant_value : Z;
  mant_frac : Z;
  mant_sawdigits : bool;
  mant_sawdot : bool;
  mant_underscores : bool
}.

Definition mant_start : mantissa := Mantissa 0 0 false false false.

Definition mant_push (base d : Z) (m : mantissa) : mantissa :=
  Mantissa (mant_value m * base + d)
           (if mant_sawdot m then mant_frac m + 1 else mant_frac m)
           true (mant_sawdot m) (mant_underscores m).

Definition mant_dot (m : mantissa) : mantissa :=
  Mantissa (mant_value m) (mant_frac m) (mant_sawdigits m) true (mant_underscores m).

Definition mant_underscore (m : mantissa) : mantissa :=
  Mantissa (mant_value m) (mant_frac m) (mant_sawdigits m) (mant_sawdot m) true.

(** The digits loop of [readFloat]; returns what is left of the text. *)
Fixpoint read_mantissa (hex : bool) (s : string) (m : mantissa) : mantissa * string :=
  match s with
  | EmptyString => (m, s)
  | String c rest =>
      if Ascii.eqb c "_" then read_mantissa hex rest (mant_underscore m)
      else if Ascii.eqb c "." then
        if mant_sawdot m then (m, s) else read_mantissa hex rest (mant_dot m)
      else if is_digit c then
        read_mantissa hex rest (mant_push (if hex then 16 else 10) (digit_val c) m)
      else if hex && is_hex_letter c then
        read_mantissa hex rest (mant_push 16 (hex_letter_val c) m)
      else (m, s)
  end.

(** The digits of the exponent; the accumulator stops growing once it
    has reached 10000. *)
Fixpoint read_exp_digits (s : string) (e : Z) (underscores : bool) : Z * bool * string :=
  match s with
  | EmptyString => (e, underscores, s)
  | String c rest =>
      if is_digit c then
        read_exp_digits rest (if e <? 10000 then e * 10 + digit_val c else e) underscores
      else if Ascii.eqb c "_" then read_exp_digits rest e true
      else (e, underscores, s)
  end.

(** The optional exponent (mandatory for a hexadecimal mantissa):
    [None] is a syntax error. *)
Definition read_exponent (hex : bool) (s : string) : option (Z * bool * string) :=
  let expChar : ascii := if hex then "p"%char else "e"%char in
  let absent := if hex then None else Some (0, false, s) in
  match s with
  | EmptyString => absent
  | String c rest =>
      if Ascii.eqb (lower c) expChar then
        let '(esign, digits) :=
          match rest with
          | String "+" r => (1, r)
          | String "-" r => (-1, r)
          | _ => (1, rest)
          end in
        match digits with
        | EmptyString => None
        | String d _ =>
            if is_digit d then
              let '(e, u, rest') := read_exp_digits digits 0 false in
              Some (e * esign, u, rest')
            else None
        end
      else absent
  end.

(** [underscoreOK]: an underscore must stand between digits, or between
    a base prefix and a digit. *)
Variant saw : Type := SawStart | SawDigit | SawUnderscore | SawOther.

Fixpoint underscore_scan (hex : bool) (s : string) (last : saw) : bool :=
  match s with
  | EmptyString => match last with SawUnderscore => false | _ => true end
  | String c rest =>
      if is_digit c || (hex && is_hex_letter c) then underscore_scan hex rest SawDigit
      else if Ascii.eqb c "_" then
        match last with
        | SawDigit => underscore_scan hex rest SawUnderscore
        | _ => false
        end
      else
        match last with
        | SawUnderscore => false
        | _ => underscore_scan hex rest SawOther
        end
  end.

Definition strip_sign (s : string) : bool * string :=
  match s with
  | String "+" rest => (false, rest)
  | String "-" rest => (true, rest)
  | _ => (false, s)
  end.

Definition underscoreOK (s : string) : bool :=
  let s1 := snd (strip_sign s) in
  match s1 with
  | String "0" (String c rest) =>
      if Ascii.eqb (lower c) "b" || Ascii.eqb (lower c) "o" || Ascii.eqb (lower c) "x"
      then underscore_scan (Ascii.eqb (lower c) "x") rest SawDigit
      else underscore_scan false s1 SawStart
  | _ => underscore_scan false s1 SawStart
  end.

(** The hexadecimal prefix is recognised only when something follows it. *)
Definition strip_hex_prefix (s : string) : bool * string :=
  match s with
  | String "0" (String c (String d rest)) =>
      if Ascii.eqb (lower c) "x" then (true, String d rest) else (false, s)
  | _ => (false, s)
  end.

(** [strconv.ParseFloat(s, 64)]: [Some f] when the error is nil, [None]
    otherwise (a syntax error, or a range error when the nearest
    float64 is an infinity). The value is the decimal or hexadecimal
    literal rounded once, to nearest even. *)
Definition ParseFloat (s : string) : option float64 :=
  match special s with
  | Some f => Some f
  | None =>
      let '(neg, s1) := strip_sign s in
      let '(hex, s2) := strip_hex_prefix s1 in
      let '(m, s3) := read_mantissa hex s2 mant_start in
      if negb (mant_sawdigits m) then None
      else
        match read_exponent hex s3 with
        | None => None
        | Some (e, u, s4) =>
            if negb (String.eqb s4 "") then None
            else if (mant_underscores m || u) && negb (underscoreOK s) then None
            else
              let f := if hex
                       then Float64.of_binary neg (mant_value m) (e - 4 * mant_frac m)
                       else Float64.of_decimal neg (mant_value m) (e - mant_frac m) in
              if Float64.is_infinite f then None else Some f
        end
  end.

End Strconv.

(* ===================================================================== *)
(** * Package time *)
(* ===================================================================== *)

Module Time.

(** A [time.Duration] is a signed 64-bit count of nanoseconds. *)
Definition Duration : Type := Z.

Definition Nanosecond : Duration := 1.
Definition Millisecond : Duration := 1000000.
Definition Second : Duration := 1000000000.

(** [d.Seconds()]: [float64(d / Second) + float64(d % Second) / 1e9],
    where [/] and [%] on integers truncate toward zero. *)
Definition Seconds (d : Duration) : float64 :=
  Float64.add (Float64.of_Z (Z.quot d Second))
              (Float64.div (Float64.of_Z (Z.rem d Second)) (Float64.of_decimal false 1 9)).

End Time.

(* ===================================================================== *)
(** * Conversions, errors, the log, events *)
(* ===================================================================== *)

(** [uint] and [int] are 64 bits wide (windows/amd64). *)
Definition uint_bits : Z := 64.

(** [uint(f)] keeps the integer part of [f]. When [uint] cannot represent
    it, Go leaves the result to the implementation: [None]. *)
Definition uint_of_float64 (f : float64) : option Z :=
  match Float64.trunc f with
  | Some z => if (0 <=? z) && (z <? 2 ^ uint_bits) then Some z else None
  | None => None
  end.

(** [int(u)] for [u : uint]: the same bits, read as a signed number. *)
Definition int_of_uint (u : Z) : Z :=
  if u <? 2 ^ (uint_bits - 1) then u else u - 2 ^ uint_bits.

(** A non-nil Go [error], by its text. *)
Variant error : Type := Error (text : string).

(** What is handed to package [log]. *)
Variant log_arg : Type :=
  | LogStr (s : string)
  | LogErr (e : error)
  | LogFloat (f : float64).

Variant log_line : Type :=
  | Println (args : list log_arg)
  | Printf (text : string).

(** The events of the two goroutines. *)
Variant event : Type :=
  | ExecCommand (name : string) (args : list string)
  | StdoutPipe (err : option error)
  | CmdStart (err : option error)
  | ProcessKill
  | ReadString (line : string) (err : option error)
  | RecvQuit
  | SendRecord (record : list string)
  | CloseRecords
  | GoTypeperf (interval : Z) (capacity : nat) (fields : list string)
  | SendResults (values : list float64)
  | RecvRecord (fields : list string)
  | RecvClosed
  | TimeAfter (d : Time.Duration)
  | SendQuit (b : bool)
  | RuntimePanic (index : nat) (len : nat)
  | CloseResults
  | LogLine (l : log_line).

(** How far a goroutine got on the environment it was given: it is still
    running (waiting for more), it returned, or it panicked. *)
Variant exit : Type := Running | Returned | Panicked.

(* ===================================================================== *)
(** * typeperf: the counter source *)
(* ===================================================================== *)

(** The environment of one [typeperf] call: the errors of
    [cmd.StdoutPipe()] and [cmd.Start()], the results of the successive
    calls of [reader.ReadString('\n')] on the subprocess's output (a line
    with its delimiter, or what was read and an error; a call past the
    end of [reads] never returns), and the iteration of the loop, if
    any, at whose [select] a value is ready on [quit]. *)
Record subprocess : Type := Subprocess {
  stdout_pipe_err : option error;
  start_err : option error;
  reads : list (string * option error);
  quit_at : option nat
}.

(** Line 56: the record sent for a line read. *)
Definition record_of_line (line : string) : list string :=
  Strings.Split (Strings.TrimSuffix line crlf) ","%char.

(** Lines 45-58: the loop, from iteration [k]. *)
Fixpoint typeperf_loop (quit : option nat) (k : nat)
    (rs : list (string * option error)) : list event * exit :=
  if decide (quit = Some k) then ([RecvQuit], Returned)
  else
    match rs with
    | [] => ([], Running)
    | (line, Some err) :: _ =>
        ([ReadString line (Some err);
          LogLine (Println [LogStr "Read error from TypePerf:"; LogErr err])],
         Returned)
    | (line, None) :: rest =>
        let '(trace, e) := typeperf_loop quit (S k) rest in
        (ReadString line None :: SendRecord (record_of_line line) :: trace, e)
    end.

(** Line 24: the arguments of the subprocess. *)
Definition typeperf_args (interval : Z) (fields : list string) : list string :=
  (fields ++ ["-si"]) ++ [Strconv.Itoa (int_of_uint interval)].

(** The deferred calls, last registered first. *)
Definition typeperf_deferred (started : bool) (e : exit) : list event :=
  match e with
  | Running => []
  | _ => if started then [ProcessKill; CloseRecords] else [CloseRecords]
  end.

(** Lines 21-59. [interval] is a [uint]. The assignment of line 26
    ([cmd.Stderr = os.Stderr]) and the making of the reader have no
    event; a send on [result] that finds the channel full waits, and is
    in the trace when it is done. *)
Definition typeperf (interval : Z) (fields : list string) (env : subprocess)
    : list event * exit :=
  let cmd := ExecCommand "TypePerf" (typeperf_args interval fields) in
  match stdout_pipe_err env with
  | Some err =>
      ([cmd; StdoutPipe (Some err);
        LogLine (Println [LogStr "Failed to connect stdout for TypePerf: "; LogErr err])]
         ++ typeperf_deferred false Returned, Returned)
  | None =>
      match start_err env with
      | Some err =>
          ([cmd; StdoutPipe None; CmdStart (Some err);
            LogLine (Println [LogStr "Failed to start TypePerf:"; LogErr err])]
             ++ typeperf_deferred false Returned, Returned)
      | None =>
          match reads env with
          | (l1, e1) :: (l2, e2) :: rest =>
              let '(trace, e) := typeperf_loop (quit_at env) 0 rest in
              ([cmd; StdoutPipe None; CmdStart None; ReadString l1 e1; ReadString l2 e2]
                 ++ trace ++ typeperf_deferred true e, e)
          | [(l1, e1)] =>
              ([cmd; StdoutPipe None; CmdStart None; ReadString l1 e1], Running)
          | [] => ([cmd; StdoutPipe None; CmdStart None], Running)
          end
      end
  end.

(* ===================================================================== *)
(** * SystemStats: the aggregator *)
(* ===================================================================== *)

(** [make([]float64, n)]. *)
Definition make (n : nat) : list float64 := replicate n Float64.zero.

(** [values[i] = v]: [None] when the index is out of range. *)
Definition store (values : list float64) (i : nat) (v : float64) : option (list float64) :=
  if decide (i < length values)%nat then Some (<[i := v]> values) else None.

(** Lines 67-72: the four counters. *)
Definition counters : list string :=
  [ "\Processor(_Total)\% Processor Time";
    "\Memory\% Committed Bytes In Use";
    "\Paging file(_Total)\% Usage";
    "\PhysicalDisk(_Total)\% Disk Time" ].

(** Line 86: the text handed to [strconv.ParseFloat]. *)
Definition unquote (field : string) : string :=
  Strings.TrimRight (Strings.TrimLeft field dquote) dquote.

(** Line 88. *)
Definition parse_warning (i : nat) (field : string) : log_line :=
  Printf ("Failed to parse field " +:+ Strconv.Itoa (Z.of_nat i)
            +:+ " in TypePerf data: '" +:+ field +:+ "'" +:+ String LF EmptyString).

(** Lines 86-90: the value of a field and what is logged for it. *)
Definition field_value (i : nat) (field : string) : float64 * list log_line :=
  match Strconv.ParseFloat (unquote field) with
  | Some value => (value, [])
  | None => (Float64.zero, [parse_warning i field])
  end.

(** Lines 92-103. *)
Definition debug_line (i : nat) (value : float64) : list log_line :=
  match i with
  | 1%nat => [Println [LogStr "CPU%: "; LogFloat value]]
  | 2%nat => [Println [LogStr "Mem%: "; LogFloat value]]
  | 3%nat => [Println [LogStr "Swap: "; LogFloat value]]
  | 4%nat => [Println [LogStr "Disk: "; LogFloat value]]
  | _ => []
  end.

(** What the processing of one record comes to. *)
Variant processed : Type :=
  | Values (values : list float64) (log : list log_line)
  | IndexOutOfRange (index : nat) (len : nat) (log : list log_line).

Section Aggregator.

(** [*gArgs.debug], a flag of the program declared outside this file. *)
Variable debug : bool.

(** The result of [uint(f)] where Go leaves it to the implementation. *)
Variable uint_unrepresentable : float64 -> Z.

Definition uint (f : float64) : Z :=
  default (uint_unrepresentable f) (uint_of_float64 f).

(** Lines 84-105: [for i, field := range fields], from index [i]. *)
Fixpoint range_fields (i : nat) (fields : list string)
    (values : list float64) (log : list log_line) : processed :=
  match fields with
  | [] => Values values log
  | field :: rest =>
      if decide (i <> 0%nat) then
        let '(value, warning) := field_value i field in
        match store values (i - 1) (Float64.div value (Float64.of_Z 100)) with
        | None => IndexOutOfRange (i - 1) (length values) (log ++ warning)
        | Some values' =>
            range_fields (S i) rest values'
              (log ++ warning ++ (if debug then debug_line i value else []))
        end
      else range_fields (S i) rest values log
  end.

(** Lines 83-105: the values of one record. *)
Definition SystemStats_record (fields : list string) : processed :=
  range_fields 0 fields (make 4) [].

(** What the [select] of line 78 comes to: a record received, the
    record channel found closed, or the timer expired. *)
Variant selected : Type :=
  | Received (fields : list string)
  | Closed
  | TimedOut.

(** Lines 78-110: one iteration of the loop. *)
Definition SystemStats_select (s : selected) : list event * exit :=
  match s with
  | Closed => ([RecvClosed], Returned)
  | Received fields =>
      match SystemStats_record fields with
      | Values values log =>
          (RecvRecord fields :: map LogLine log ++ [SendResults values], Running)
      | IndexOutOfRange i n log =>
          (RecvRecord fields :: map LogLine log ++ [RuntimePanic i n], Panicked)
      end
  | TimedOut =>
      ([TimeAfter (10 * Time.Second);
        LogLine (Println [LogStr "TypePerf read timed out"]);
        SendQuit true], Running)
  end.

(** Lines 77-111. *)
Fixpoint SystemStats_loop (ss : list selected) : list event * exit :=
  match ss with
  | [] => ([], Running)
  | s :: rest =>
      match SystemStats_select s with
      | (trace, Running) =>
          let '(trace', e) := SystemStats_loop rest in (trace ++ trace', e)
      | stopped => stopped
      end
  end.

(** Line 64: the deferred [close(results)]. *)
Definition SystemStats_deferred (e : exit) : list event :=
  match e with
  | Running => []
  | _ => [CloseResults]
  end.

(** Lines 63-112. [ss] is what the successive [select]s of the loop come
    to; the trace is that of the goroutine in program order, a send
    being in it when it is done. *)
Definition SystemStats (interval : Time.Duration) (ss : list selected)
    : list event * exit :=
  let '(trace, e) := SystemStats_loop ss in
  ([GoTypeperf (uint (Time.Seconds interval)) 5 counters; SendResults (make 4)]
     ++ trace ++ SystemStats_deferred e, e).

End Aggregator.

(* ===================================================================== *)
(** * The vocabulary of the properties *)
(* ===================================================================== *)

(** The number a field parses to, if it does. *)
Definition parsed (field : string) : option float64 :=
  Strconv.ParseFloat (unquote field).

(** The value stored for a field: its number, or zero, over 100. *)
Definition fraction (field : string) : float64 :=
  Float64.div (default Float64.zero (parsed field)) (Float64.of_Z 100).

(** How many events of a trace satisfy a test. *)
Fixpoint count (p : event -> bool) (trace : list event) : nat :=
  match trace with
  | [] => 0
  | e :: rest => ((if p e then 1 else 0) + count p rest)%nat
  end.

Definition is_timeout (e : event) : bool :=
  match e with TimeAfter _ => true | _ => false end.
Definition is_cancel (e : event) : bool :=
  match e with SendQuit _ => true | _ => false end.
Definition is_record (e : event) : bool :=
  match e with SendRecord _ => true | _ => false end.
Definition is_command (e : event) : bool :=
  match e with ExecCommand _ _ => true | _ => false end.
Definition is_start (e : event) : bool :=
  match e with CmdStart _ => true | _ => false end.
Definition is_close_records (e : event) : bool :=
  match e with CloseRecords => true | _ => false end.

(** The line logged on a stall. *)
Definition stall : event := LogLine (Println [LogStr "TypePerf read timed out"]).

(** A record is well formed when it has a timestamp and every field
    after it parses as a number once its quotes are stripped. *)
Definition well_formed (fields : list string) : Prop :=
  fields <> [] /\
  forall i field, (1 <= i)%nat -> fields !! i = Some field -> is_Some (parsed field).

(** The decimal constants of the examples, as float64 constants. *)
Definition f0_452 : float64 := Float64.of_decimal false 452 (-3).
Definition f0_600 : float64 := Float64.of_decimal false 600 (-3).
Definition f0_000 : float64 := Float64.of_decimal false 0 (-3).
Definition f0_125 : float64 := Float64.of_decimal false 125 (-3).

(** The line ["20231001120000.000","45.2","60.0","0.0","12.5"] with its
    terminator. *)
Definition sample_line : string :=
  quoted "20231001120000.000" +:+ "," +:+ quoted "45.2" +:+ "," +:+ quoted "60.0"
    +:+ "," +:+ quoted "0.0" +:+ "," +:+ quoted "12.5" +:+ crlf.

(** The record ["ts","abc","60.0","0.0","12.5"]. *)
Definition malformed_record : list string :=
  [quoted "ts"; quoted "abc"; quoted "60.0"; quoted "0.0"; quoted "12.5"].

(** A subprocess that starts, prints the blank line, the header and then
    the given lines, and goes on running. *)
Definition printing (lines : list string) : subprocess :=
  Subprocess None None
    ((crlf, None) :: ("header" +:+ crlf, None) :: map (fun l => (l, None)) lines)
    None.

(** In the words of the specification, "the requested duration rounded
    to whole seconds": the nearest whole number of seconds, a half up,
    as [d.Round(time.Second)] rounds a non-negative duration. It is not
    taken from the source, and stands beside [uint (Time.Seconds d)]
    for comparison. *)
Definition rounded_seconds (d : Time.Duration) : Z :=
  (d + Time.Second / 2) / Time.Second.

(** ** The vocabulary of the further properties *)

(** The records sent on the record channel, in order. *)
Fixpoint sent_records (trace : list event) : list (list string) :=
  match trace with
  | [] => []
  | SendRecord record :: rest => record :: sent_records rest
  | _ :: rest => sent_records rest
  end.

(** The vectors sent on the results channel, in order. *)
Fixpoint sent_results (trace : list event) : list (list float64) :=
  match trace with
  | [] => []
  | SendResults values :: rest => values :: sent_results rest
  | _ :: rest => sent_results rest
  end.

Definition is_kill (e : event) : bool :=
  match e with ProcessKill => true | _ => false end.
Definition is_read (e : event) : bool :=
  match e with ReadString _ _ => true | _ => false end.
Definition is_close_results (e : event) : bool :=
  match e with CloseResults => true | _ => false end.
Definition is_send_results (e : event) : bool :=
  match e with SendResults _ => true | _ => false end.

(** Whether the subprocess of [typeperf] got started. *)
Definition started (env : subprocess) : bool :=
  match stdout_pipe_err env, start_err env with
  | None, None => true
  | _, _ => false
  end.

(** The lines read without an error, up to the first read that has one. *)
Fixpoint lines_before_error (rs : list (string * option error)) : list string :=
  match rs with
  | (line, None) :: rest => line :: lines_before_error rest
  | _ => []
  end.

(** [strings.Join(fields, sep)], against which the split of line 56 is
    read back. *)
Fixpoint Join (fields : list string) (sep : string) : string :=
  match fields with
  | [] => EmptyString
  | [field] => field
  | field :: rest => field +:+ sep +:+ Join rest sep
  end.

(** How many times the byte [c] occurs in [s]. *)
Fixpoint occurrences (c : ascii) (s : string) : nat :=
  match s with
  | EmptyString => 0
  | String a rest => ((if Ascii.eqb a c then 1 else 0) + occurrences c rest)%nat
  end.

(** The vector of a record of at most five fields, in closed form: the
    fractions of the fields after the timestamp, then zeros, four in
    all. *)
Definition vector_of (fields : list string) : list float64 :=
  take 4 ((fraction <$> tail fields) ++ make 4).

(** The records that the loop of the aggregator receives before it finds
    the channel closed. *)
Fixpoint records_until_closed (ss : list selected) : list (list string) :=
  match ss with
  | [] => []
  | Received fields :: rest => fields :: records_until_closed rest
  | Closed :: _ => []
  | TimedOut :: rest => records_until_closed rest
  end.

(** A record that the aggregator can store whole. *)
Definition fits (s : selected) : Prop :=
  match s with
  | Received fields => (length fields <= 5)%nat
  | _ => True
  end.

(** What the aggregator finds on the record channel when the counter
    source has done [trace] and no timer expires: the records sent, in
    the order of the sends, and then the closure. *)
Fixpoint channel (trace : list event) : list selected :=
  match trace with
  | [] => []
  | SendRecord record :: rest => Received record :: channel rest
  | CloseRecords :: rest => Closed :: channel rest
  | _ :: rest => channel rest
  end.

(** A read that returns a line, and the events of the loop of
    [typeperf] for lines so read: each is read, split and sent. *)
Definition read_ok (line : string) : string * option error := (line, None).

Definition line_events (lines : list string) : list event :=
  flat_map (fun line => [ReadString line None; SendRecord (record_of_line line)]) lines.

(** The line logged for a read that fails (line 52). *)
Definition read_error (err : error) : event :=
  LogLine (Println [LogStr "Read error from TypePerf:"; LogErr err]).

(** Lines 93-102: the label of the debug line of field [i]. *)
Definition debug_label (i : nat) : option string :=
  match i with
  | 1%nat => Some "CPU%: "
  | 2%nat => Some "Mem%: "
  | 3%nat => Some "Swap: "
  | 4%nat => Some "Disk: "
  | _ => None
  end.

(** Lines 86-89 over the fields from index [i] on: one warning for each
    field that does not parse, in the order of the fields. *)
Fixpoint warnings_from (i : nat) (fields : list string) : list log_line :=
  match fields with
  | [] => []
  | field :: rest =>
      match parsed field with
      | Some _ => warnings_from (S i) rest
      | None => parse_warning i field :: warnings_from (S i) rest
      end
  end.

(** The warnings of a record: those of its fields after the timestamp. *)
Definition warnings_of (fields : list string) : list log_line :=
  warnings_from 1 (tail fields).

(* ===================================================================== *)
(** * float64 arithmetic: the seconds of a duration *)
(* ===================================================================== *)

(** [uint(d.Seconds())] goes through three roundings: of the two
    integers to float64, of the quotient by [1e9], and of the sum. This
    section follows them on the definitions of [spec_float] and shows
    that, below [2 ^ 23] seconds, what comes out is the number of whole
    seconds of [d]. *)

Lemma digits2_size p : digits2_pos p = Pos.size p.
Proof. induction p; simpl; congruence. Qed.

Lemma pos_pow_Z (p : positive) : Zpos (2 ^ p) = 2 ^ Zpos p.
Proof. rewrite Pos2Z.inj_pow. reflexivity. Qed.

Lemma Zdigits2_bounds n :
  0 < n -> 2 ^ (Zdigits2 n - 1) <= n < 2 ^ Zdigits2 n.
Proof.
  destruct n as [|p|p]; try lia. intros _. cbn [Zdigits2]. rewrite digits2_size.
  pose proof (Pos.size_gt p) as Hgt. pose proof (Pos.size_le p) as Hle.
  apply Pos2Z.pos_lt_pos in Hgt. apply Pos2Z.pos_le_pos in Hle.
  rewrite pos_pow_Z in Hgt, Hle. split; [|exact Hgt].
  replace (Zpos (Pos.size p)) with (Zpos (Pos.size p) - 1 + 1) in Hle by lia.
  rewrite Z.pow_add_r in Hle by lia. change (2 ^ 1) with 2 in Hle. lia.
Qed.

Lemma Zdigits2_unique n k :
  0 < n -> 2 ^ (k - 1) <= n < 2 ^ k -> Zdigits2 n = k.
Proof.
  intros Hn [Hlo Hhi]. pose proof (Zdigits2_bounds n Hn) as [Hlo' Hhi'].
  assert (0 < Zdigits2 n) by (destruct n; cbn; lia).
  destruct (Z.lt_trichotomy (Zdigits2 n) k) as [Hlt|[Heq|Hgt]]; [|exact Heq|].
  - assert (2 ^ Zdigits2 n <= 2 ^ (k - 1)) by (apply Z.pow_le_mono_r; lia). lia.
  - assert (0 < k).
    { destruct (Z.le_gt_cases k 0) as [Hk|Hk]; [|exact Hk].
      assert (2 ^ k <= 2 ^ 0) by (apply Z.pow_le_mono_r_iff; lia).
      change (2^0) with 1 in *. lia. }
    assert (2 ^ k <= 2 ^ (Zdigits2 n - 1)) by (apply Z.pow_le_mono_r; lia). lia.
Qed.

Lemma shr_1_m mrs :
  0 <= shr_m mrs -> shr_m (shr_1 mrs) = shr_m mrs / 2 /\ 0 <= shr_m (shr_1 mrs).
Proof.
  destruct mrs as [m r s]. cbn [shr_m]. intros Hm.
  destruct m as [|[p|p|]|p]; cbn [shr_1 shr_m]; [| | | |lia].
  - split; [reflexivity|lia].
  - split; [|lia]. rewrite Pos2Z.inj_xI. apply Z.div_unique with 1; lia.
  - split; [|lia]. rewrite Pos2Z.inj_xO. apply Z.div_unique with 0; lia.
  - split; [reflexivity|lia].
Qed.

Lemma shr_iter_m p : forall mrs,
  0 <= shr_m mrs ->
  shr_m (SpecFloat.iter_pos shr_1 p mrs) = shr_m mrs / 2 ^ Zpos p /\
  0 <= shr_m (SpecFloat.iter_pos shr_1 p mrs).
Proof.
  induction p as [p IH|p IH|]; intros mrs Hm; cbn [SpecFloat.iter_pos].
  - destruct (shr_1_m mrs Hm) as [E1 P1].
    destruct (IH _ P1) as [E2 P2]. destruct (IH _ P2) as [E3 P3].
    split; [|exact P3]. rewrite E3, E2, E1.
    rewrite !Z.div_div by lia. f_equal.
    rewrite (Pos2Z.inj_xI p).
    replace (2 * Zpos p + 1) with (1 + Zpos p + Zpos p) by lia.
    rewrite !Z.pow_add_r by lia. change (2 ^ 1) with 2. ring.
  - destruct (IH _ Hm) as [E2 P2]. destruct (IH _ P2) as [E3 P3].
    split; [|exact P3]. rewrite E3, E2.
    rewrite !Z.div_div by lia. f_equal.
    rewrite (Pos2Z.inj_xO p).
    replace (2 * Zpos p) with (Zpos p + Zpos p) by lia.
    rewrite !Z.pow_add_r by lia. ring.
  - destruct (shr_1_m mrs Hm) as [E1 P1]. split; [|exact P1]. exact E1.
Qed.

Lemma shr_record_of_loc_m m l : shr_m (shr_record_of_loc m l) = m.
Proof. destruct l as [|[]]; reflexivity. Qed.

Lemma round_nearest_even_cases m l :
  round_nearest_even m l = m \/ round_nearest_even m l = m + 1.
Proof. destruct l as [|[]]; cbn; auto. destruct (Z.even m); auto. Qed.

Lemma fexp_normal e : 3 - Float64.emax - Float64.prec <= e - Float64.prec -> fexp Float64.prec Float64.emax e = e - Float64.prec.
Proof. intros H. unfold fexp, emin. lia. Qed.

(** The shift of [shr]: the mantissa divided by a power of two. *)
Lemma shr_m_spec mrs e n :
  0 <= shr_m mrs -> 0 <= n ->
  shr_m (fst (shr mrs e n)) = shr_m mrs / 2 ^ n /\ snd (shr mrs e n) = e + n.
Proof.
  intros Hm Hn. destruct n as [|p|p]; cbn [shr fst snd]; try lia.
  - rewrite Z.pow_0_r, Z.div_1_r. lia.
  - split; [|reflexivity]. apply shr_iter_m. exact Hm.
Qed.

Lemma Zdigits2_53 m : 2 ^ 52 <= m < 2 ^ 53 -> Zdigits2 m = 53.
Proof. intros H. apply Zdigits2_unique; [lia|]. exact H. Qed.

(** Rounding a positive mantissa of [53 + t] bits: the result is finite,
    its mantissa is the quotient by [2 ^ t] or the next integer, and it
    is exact when nothing is shifted out. *)
Lemma binary_round_aux_spec mx ex lx t :
  0 < mx -> Zdigits2 mx = 53 + t -> 0 <= t ->
  3 - Float64.emax - Float64.prec <= ex + t -> ex + t + 1 <= Float64.emax - Float64.prec ->
  exists m e,
    binary_round_aux Float64.prec Float64.emax false mx ex lx = S754_finite false m e /\
    2 ^ 52 <= Zpos m < 2 ^ 53 /\
    ex + t <= e /\
    (Zpos m * 2 ^ (e - (ex + t)) = mx / 2 ^ t \/
     Zpos m * 2 ^ (e - (ex + t)) = mx / 2 ^ t + 1) /\
    (t = 0 -> lx = loc_Exact -> Zpos m = mx /\ e = ex).
Proof.
  intros Hmx Hdig Ht Hlo Hhi.
  pose proof (Zdigits2_bounds mx Hmx) as Hb. rewrite Hdig in Hb.
  set (a := mx / 2 ^ t).
  assert (2 ^ 52 <= a < 2 ^ 53) as Ha.
  { unfold a. replace (53 + t - 1) with (52 + t) in Hb by lia.
    rewrite !Z.pow_add_r in Hb by lia. split.
    - apply Z.div_le_lower_bound; lia.
    - apply Z.div_lt_upper_bound; lia. }
  unfold binary_round_aux.
  assert (shr_fexp Float64.prec Float64.emax mx ex lx = shr (shr_record_of_loc mx lx) ex t) as E1.
  { unfold shr_fexp. rewrite Hdig. rewrite fexp_normal by (unfold Float64.prec in *; lia).
    f_equal. unfold Float64.prec. lia. }
  rewrite E1.
  destruct (shr_m_spec (shr_record_of_loc mx lx) ex t) as [Em Ee];
    [rewrite shr_record_of_loc_m; lia | lia |].
  rewrite shr_record_of_loc_m in Em. fold a in Em.
  destruct (shr (shr_record_of_loc mx lx) ex t) as [mrs' e'] eqn:Eshr.
  cbn [fst snd] in Em, Ee. subst e'.
  set (m0 := round_nearest_even (shr_m mrs') (loc_of_shr_record mrs')).
  assert (m0 = a \/ m0 = a + 1) as Hm0.
  { unfold m0. rewrite <- Em. apply round_nearest_even_cases. }
  assert (t = 0 -> lx = loc_Exact -> m0 = a) as Hexact.
  { intros -> ->. cbn in Eshr. injection Eshr as <- _.
    unfold m0, a. cbn [shr_m loc_of_shr_record round_nearest_even].
    rewrite Z.pow_0_r, Z.div_1_r. reflexivity. }
  destruct (Z.eq_dec m0 (2 ^ 53)) as [Hcarry|Hnocarry].
  - (* the rounding carried into a 54th bit *)
    assert (shr_fexp Float64.prec Float64.emax m0 (ex + t) loc_Exact
              = (shr_1 (shr_record_of_loc m0 loc_Exact), ex + t + 1)) as E2.
    { unfold shr_fexp. rewrite Hcarry. change (Zdigits2 (2 ^ 53)) with 54.
      rewrite fexp_normal by (unfold Float64.prec in *; lia).
      replace (54 + (ex + t) - Float64.prec - (ex + t)) with 1 by (unfold Float64.prec; lia).
      reflexivity. }
    rewrite E2. rewrite Hcarry. cbn [shr_record_of_loc shr_1 shr_m].
    change (2 ^ 53) with (Zpos (xO (Pos.pow 2 52))). cbn [shr_1 shr_m].
    replace (ex + t + 1 <=? Float64.emax - Float64.prec) with true by (symmetry; apply Z.leb_le; lia).
    eexists _, _. split; [reflexivity|]. split; [rewrite pos_pow_Z; lia|].
    split; [lia|]. split.
    + right. replace (ex + t + 1 - (ex + t)) with 1 by lia.
      destruct Hm0 as [Hm0|Hm0]; [lia|]. rewrite <- Hm0, Hcarry. reflexivity.
    + intros H0 Hl. specialize (Hexact H0 Hl). lia.
  - assert (2 ^ 52 <= m0 < 2 ^ 53) as Hm0b by lia.
    assert (shr_fexp Float64.prec Float64.emax m0 (ex + t) loc_Exact
              = (shr_record_of_loc m0 loc_Exact, ex + t)) as E2.
    { unfold shr_fexp. rewrite (Zdigits2_53 m0 Hm0b).
      rewrite fexp_normal by (unfold Float64.prec in *; lia).
      replace (53 + (ex + t) - Float64.prec - (ex + t)) with 0 by (unfold Float64.prec; lia).
      reflexivity. }
    rewrite E2. cbn [shr_record_of_loc shr_m].
    destruct m0 as [|m|m] eqn:Em0; [lia | | lia].
    replace (ex + t <=? Float64.emax - Float64.prec) with true by (symmetry; apply Z.leb_le; lia).
    exists m, (ex + t). split; [reflexivity|]. split; [lia|]. split; [lia|]. split.
    + rewrite Z.sub_diag, Z.pow_0_r, Z.mul_1_r. exact Hm0.
    + intros H0 Hl. specialize (Hexact H0 Hl). subst t.
      unfold a in Hexact. rewrite Z.pow_0_r, Z.div_1_r in Hexact. lia.
Qed.

Lemma iter_xO p d : Zpos (Pos.iter xO p d) = Zpos p * 2 ^ Zpos d.
Proof.
  induction d as [|d IH] using Pos.peano_ind.
  - cbn. lia.
  - rewrite Pos.iter_succ, Pos2Z.inj_xO, IH, Pos2Z.inj_succ, Z.pow_succ_r by lia. ring.
Qed.

(** [float64(n)] is exact below [2 ^ 53]: a mantissa of 53 bits spelling
    [n]. *)
Lemma of_Z_spec n :
  0 < n < 2 ^ 53 ->
  exists m,
    Float64.of_Z n = S754_finite false m (Zdigits2 n - 53) /\
    Zpos m = n * 2 ^ (53 - Zdigits2 n) /\
    2 ^ 52 <= Zpos m < 2 ^ 53.
Proof.
  intros [Hpos Hlt]. destruct n as [|p|p]; try lia.
  pose proof (Zdigits2_bounds (Zpos p) Hpos) as Hb.
  set (k := Zdigits2 (Zpos p)) in *.
  assert (1 <= k <= 53) as Hk.
  { split.
    - unfold k. cbn. lia.
    - destruct (Z.le_gt_cases k 53) as [H|H]; [exact H|].
      assert (2 ^ 53 <= 2 ^ (k - 1)) by (apply Z.pow_le_mono_r; lia). lia. }
  unfold Float64.of_Z, binary_normalize, binary_round.
  change (Zpos (digits2_pos p)) with k. rewrite Z.add_0_r.
  rewrite fexp_normal by (unfold Float64.prec, Float64.emax; lia).
  assert (exists mz, shl_align p 0 (k - Float64.prec) = (mz, k - 53) /\
                     Zpos mz = Zpos p * 2 ^ (53 - k)) as (mz & Esh & Emz).
  { unfold shl_align. rewrite Z.sub_0_r. unfold Float64.prec.
    destruct (k - 53) as [|d|d] eqn:Ekd; try lia.
    - exists p. split; [reflexivity|]. replace (53 - k) with 0 by lia. lia.
    - exists (Pos.iter xO p d). split; [reflexivity|]. rewrite iter_xO.
      f_equal. f_equal. lia. }
  rewrite Esh.
  assert (2 ^ 52 <= Zpos mz < 2 ^ 53) as Hmz.
  { rewrite Emz.
    assert (2 ^ 52 = 2 ^ (k - 1) * 2 ^ (53 - k)) as ->
      by (rewrite <- Z.pow_add_r by lia; f_equal; lia).
    assert (2 ^ 53 = 2 ^ k * 2 ^ (53 - k)) as ->
      by (rewrite <- Z.pow_add_r by lia; f_equal; lia).
    assert (0 < 2 ^ (53 - k)) by (apply Z.pow_pos_nonneg; lia). nia. }
  destruct (binary_round_aux_spec (Zpos mz) (k - 53) loc_Exact 0)
    as (m & e & Eround & Hm & _ & _ & Hexact);
    [lia | rewrite Z.add_0_r; apply Zdigits2_53; exact Hmz | lia
     | unfold Float64.emax, Float64.prec; lia | unfold Float64.emax, Float64.prec; lia |].
  destruct (Hexact eq_refl eq_refl) as [Em ->].
  exists m. rewrite Eround. split; [reflexivity|]. split; [|exact Hm].
  rewrite Em. exact Emz.
Qed.

Lemma of_Z_Second : Float64.of_Z Time.Second = S754_finite false 8388608000000000 (-23).
Proof. reflexivity. Qed.

(** The fraction of a second: [float64(n) / 1e9] for [0 < n < 10^9] is a
    normal number below one, at most [n / 10^9] plus one unit of its
    last place. *)
Lemma div_Second_spec n :
  0 < n < Time.Second ->
  exists m e,
    SFdiv Float64.prec Float64.emax (Float64.of_Z n) (Float64.of_Z Time.Second) = S754_finite false m e /\
    2 ^ 52 <= Zpos m < 2 ^ 53 /\
    -83 <= e <= -53 /\
    Zpos m * Time.Second <= (Time.Second - 1) * 2 ^ (- e) + Time.Second.
Proof.
  intros Hn.
  destruct (of_Z_spec n) as (m1 & E1 & Em1 & Hm1); [unfold Time.Second in Hn; lia|].
  pose proof (Zdigits2_bounds n (proj1 Hn)) as Hb.
  set (k := Zdigits2 n) in *.
  assert (1 <= k <= 30) as Hk.
  { split.
    - unfold k. destruct n; cbn; lia.
    - destruct (Z.le_gt_cases k 30) as [H|H]; [exact H|].
      assert (2 ^ 30 <= 2 ^ (k - 1)) by (apply Z.pow_le_mono_r; lia).
      unfold Time.Second in Hn. lia. }
  rewrite E1, of_Z_Second. unfold SFdiv, SFdiv_core_binary.
  rewrite (Zdigits2_53 (Zpos m1) Hm1).
  change (Zdigits2 8388608000000000) with 53.
  replace (53 + (k - 53) - (53 + -23)) with (k - 30) by lia.
  rewrite fexp_normal by (unfold Float64.prec, Float64.emax; lia).
  replace (Z.min (k - 30 - Float64.prec) (k - 53 - -23)) with (k - 83) by (unfold Float64.prec; lia).
  replace (k - 53 - -23 - (k - 83)) with 53 by lia.
  set (m2 := 8388608000000000).
  assert (m2 = Time.Second * 2 ^ 23) as Em2 by reflexivity.
  rewrite Z.shiftl_mul_pow2 by lia.
  pose proof (Z_div_mod (Zpos m1 * 2 ^ 53) m2 ltac:(unfold m2; lia)) as Hdm.
  destruct (Z.div_eucl (Zpos m1 * 2 ^ 53) m2) as [q r]. destruct Hdm as [Eq Hr].
  assert (2 ^ 52 <= q < 2 ^ 54) as Hq by (unfold m2 in *; nia).
  cbn [xorb].
  assert (exists t, (t = 0 \/ t = 1) /\ Zdigits2 q = 53 + t) as (t & Ht & Hdq).
  { destruct (Z.lt_ge_cases q (2 ^ 53)) as [H|H].
    - exists 0. split; [auto|]. apply Zdigits2_unique; lia.
    - exists 1. split; [auto|]. apply Zdigits2_unique; lia. }
  destruct (binary_round_aux_spec q (k - 83) (new_location m2 r) t)
    as (m & e & Eround & Hm & He & HV & _);
    [lia | exact Hdq | lia | unfold Float64.emax, Float64.prec; lia | unfold Float64.emax, Float64.prec; lia |].
  exists m, e. split; [exact Eround|]. split; [exact Hm|].
  set (c := e - (k - 83 + t)) in *.
  assert (0 <= c) as Hc0 by (unfold c; lia).
  assert (0 < 2 ^ t <= 2) as HT by (destruct Ht as [-> | ->]; cbn; lia).
  assert (q / 2 ^ t * 2 ^ t <= q) as Hfloor.
  { rewrite Z.mul_comm. apply Z.mul_div_le. lia. }
  assert (q / 2 ^ t < 2 ^ 53) as Ha.
  { apply Z.div_lt_upper_bound; [lia|].
    pose proof (Zdigits2_bounds q ltac:(lia)) as Hbq. rewrite Hdq in Hbq.
    rewrite Z.pow_add_r in Hbq by lia. lia. }
  assert (c <= 1) as Hc1.
  { destruct (Z.le_gt_cases c 1) as [H|H]; [exact H|].
    assert (2 ^ 2 <= 2 ^ c) by (apply Z.pow_le_mono_r; lia).
    change (2 ^ 2) with 4 in *. nia. }
  assert (e = k - 83 + t + c) as Ee by (unfold c; lia).
  assert (0 <= - e) as Hneg by lia.
  set (Y := 2 ^ (- e)). set (A := 2 ^ c) in *. set (T := 2 ^ t) in *.
  assert (0 < A) as HA by (apply Z.pow_pos_nonneg; lia).
  assert (0 < Y) as HY by (apply Z.pow_pos_nonneg; lia).
  assert (Zpos m1 * 2 ^ 53 = n * (Y * (T * A) * 2 ^ 23)) as Escale.
  { rewrite Em1. unfold Y, T, A. rewrite <- !Z.pow_add_r by lia.
    rewrite <- Z.mul_assoc, <- Z.pow_add_r by lia. f_equal. f_equal. lia. }
  assert ((Zpos m * A - 1) * T <= q) as HVq by nia.
  assert ((Zpos m * A - 1) * Time.Second <= n * Y * A) as Hcore.
  { assert ((Zpos m * A - 1) * T * m2 <= Zpos m1 * 2 ^ 53) as H1 by nia.
    rewrite Escale, Em2 in H1.
    assert (0 < T * 2 ^ 23) as HT23 by lia.
    apply (Z.mul_le_mono_pos_r _ _ (T * 2 ^ 23) HT23).
    lia. }
  assert (Zpos m * Time.Second <= n * Y + Time.Second) as Hbound by (unfold Time.Second in *; nia).
  assert (Zpos m * Time.Second <= (Time.Second - 1) * Y + Time.Second) as Hgoal by (unfold Time.Second in *; nia).
  split; [|exact Hgoal]. split; [lia|].
  destruct (Z.le_gt_cases e (-53)) as [H|H]; [exact H|].
  assert (Y <= 2 ^ 52) by (apply Z.pow_le_mono_r; lia).
  unfold Time.Second in *. lia.
Qed.

Lemma trunc_of_Z n : 0 <= n < 2 ^ 53 -> Float64.trunc (Float64.of_Z n) = Some n.
Proof.
  intros Hn. destruct (Z.eq_dec n 0) as [->|Hn0]; [reflexivity|].
  destruct (of_Z_spec n) as (m & E & Em & Hm); [lia|]. rewrite E.
  pose proof (Zdigits2_bounds n ltac:(lia)) as Hb.
  set (k := Zdigits2 n) in *.
  assert (k <= 53) as Hk.
  { destruct (Z.le_gt_cases k 53) as [H|H]; [exact H|].
    assert (2 ^ 53 <= 2 ^ (k - 1)) by (apply Z.pow_le_mono_r; lia). lia. }
  cbn [Float64.trunc]. f_equal. destruct (Z.leb_spec 0 (k - 53)) as [H|H].
  - replace (k - 53) with 0 by lia. replace (53 - k) with 0 in Em by lia.
    rewrite Z.shiftl_0_r, Em. lia.
  - rewrite Z.shiftr_div_pow2 by lia. rewrite Em.
    replace (- (k - 53)) with (53 - k) by lia.
    apply Z.div_mul. assert (0 < 2 ^ (53 - k)) by (apply Z.pow_pos_nonneg; lia). lia.
Qed.

(** Whole seconds plus a fraction of a second: below [2 ^ 23] seconds
    the sum stays under the next whole second. *)
Lemma trunc_add_fraction sec mq xq :
  0 < sec < 2 ^ 23 ->
  2 ^ 52 <= Zpos mq < 2 ^ 53 -> xq <= -53 -> 3 - Float64.emax - Float64.prec <= xq ->
  Zpos mq * Time.Second <= (Time.Second - 1) * 2 ^ (- xq) + Time.Second ->
  Float64.trunc (SFadd Float64.prec Float64.emax (Float64.of_Z sec) (S754_finite false mq xq)) = Some sec.
Proof.
  intros Hsec Hmq Heq Hemin Hq.
  destruct (of_Z_spec sec) as (ms & E & Ems & Hms); [lia|]. rewrite E.
  pose proof (Zdigits2_bounds sec ltac:(lia)) as Hb.
  set (k := Zdigits2 sec) in *.
  assert (1 <= k <= 23) as Hk.
  { split.
    - unfold k. destruct sec; cbn; lia.
    - destruct (Z.le_gt_cases k 23) as [H|H]; [exact H|].
      assert (2 ^ 23 <= 2 ^ (k - 1)) by (apply Z.pow_le_mono_r; lia). lia. }
  set (es := k - 53) in *. set (t := es - xq).
  assert (1 <= t) as Ht by (unfold t, es; lia).
  set (Z0 := 2 ^ (- es)). set (W := 2 ^ t). set (Y := 2 ^ (- xq)) in *.
  assert (Y = Z0 * W) as EY.
  { unfold Y, Z0, W. rewrite <- Z.pow_add_r by (unfold t, es; lia).
    f_equal. unfold t. lia. }
  assert (2 ^ 30 <= Z0) as HZ0 by (apply Z.pow_le_mono_r; unfold es; lia).
  assert (2 <= W) as HW by (apply (Z.pow_le_mono_r 2 1 t); lia).
  assert (2 ^ 53 <= Y) as HY by (apply Z.pow_le_mono_r; lia).
  assert (Zpos ms = sec * Z0) as Ems'.
  { rewrite Ems. unfold Z0, es. f_equal. f_equal. lia. }
  unfold SFadd. rewrite Z.min_r by (unfold es; lia).
  assert (exists ps, shl_align ms es xq = (ps, xq) /\ Zpos ps = Zpos ms * W)
    as (ps & Eps & Hps).
  { unfold shl_align. destruct (xq - es) as [|d|d] eqn:Ed; try (unfold t in Ht; lia).
    exists (Pos.iter xO ms d). split; [reflexivity|]. rewrite iter_xO.
    unfold W. f_equal. f_equal. unfold t. lia. }
  assert (shl_align mq xq xq = (mq, xq)) as Epq.
  { unfold shl_align. rewrite Z.sub_diag. reflexivity. }
  rewrite Eps, Epq. cbn [fst cond_Zopp].
  change (Z.pos ps + Z.pos mq) with (Z.pos (ps + mq)).
  unfold binary_normalize, binary_round.
  set (pM := (ps + mq)%positive).
  assert (Zpos pM = Zpos ms * W + Zpos mq) as EM by (unfold pM; lia).
  assert (Zpos mq < Y) as HmqY by (unfold Time.Second in *; lia).
  assert (Zdigits2 (Zpos pM) = 53 + t) as Hdig.
  { apply Zdigits2_unique; [lia|]. rewrite EM.
    replace (53 + t - 1) with (52 + t) by lia. rewrite !Z.pow_add_r by lia. fold W.
    split; [nia|].
    assert (sec + 1 <= 2 ^ k) by lia.
    assert (2 ^ 53 = 2 ^ k * Z0) as ->.
    { unfold Z0, es. rewrite <- Z.pow_add_r by lia. f_equal. lia. }
    nia. }
  change (Zpos (digits2_pos pM)) with (Zdigits2 (Zpos pM)). rewrite Hdig.
  replace (53 + t + xq) with (53 + es) by (unfold t; lia).
  rewrite fexp_normal by (unfold Float64.prec, Float64.emax, es; lia).
  assert (shl_align pM xq (53 + es - Float64.prec) = (pM, xq)) as Esh.
  { unfold shl_align, Float64.prec. destruct (53 + es - 53 - xq) eqn:Ed;
      try reflexivity. unfold t in Ht. lia. }
  rewrite Esh.
  destruct (binary_round_aux_spec (Zpos pM) xq loc_Exact t)
    as (m & e & Eround & Hm & He & HV & _);
    [lia | exact Hdig | lia | lia | unfold Float64.emax, Float64.prec, t, es; lia |].
  rewrite Eround. cbn [Float64.trunc].
  replace (xq + t) with es in * by (unfold t; lia).
  set (c := e - es) in *.
  assert (0 <= c) as Hc0 by (unfold c; lia).
  assert (Zpos pM / W = Zpos ms + Zpos mq / W) as Ea.
  { rewrite EM. rewrite Z.add_comm, Z.div_add by lia. lia. }
  fold W in HV. rewrite Ea in HV.
  assert (Zpos mq / W <= Z0 - 2) as Hf.
  { assert (Zpos mq / W < Z0 - 1); [|lia].
    apply Z.div_lt_upper_bound; [lia|].
    assert (Time.Second + Time.Second * W < Z0 * W) as Hkey.
    { destruct (Z.lt_ge_cases W 16) as [Hs|Hl].
      - assert (2 ^ 49 <= Z0) by (change (2 ^ 53) with (2 ^ 49 * 16) in HY; nia).
        unfold Time.Second. change (2 ^ 49) with 562949953421312 in *. nia.
      - unfold Time.Second. change (2 ^ 30) with 1073741824 in *. nia. }
    unfold Time.Second in *. nia. }
  assert (0 <= Zpos mq / W) as Hf0 by (apply Z.div_pos; lia).
  assert (c <= 1) as Hc1.
  { destruct (Z.le_gt_cases c 1) as [H|H]; [exact H|].
    assert (2 ^ 2 <= 2 ^ c) by (apply Z.pow_le_mono_r; lia).
    change (2 ^ 2) with 4 in *.
    assert (sec + 1 <= 2 ^ k) by lia.
    assert (2 ^ 53 = 2 ^ k * Z0) as E53.
    { unfold Z0, es. rewrite <- Z.pow_add_r by lia. f_equal. lia. }
    nia. }
  assert (e < 0) as Hneg by (unfold c, es in *; lia).
  destruct (Z.leb_spec 0 e) as [H|_]; [lia|].
  rewrite Z.shiftr_div_pow2 by lia. f_equal.
  set (A := 2 ^ c) in *. set (D := 2 ^ (- e)).
  assert (0 < A) as HA by (apply Z.pow_pos_nonneg; lia).
  assert (0 < D) as HD by (apply Z.pow_pos_nonneg; lia).
  assert (Z0 = D * A) as EZ0.
  { unfold Z0, D, A. rewrite <- Z.pow_add_r by lia. f_equal. unfold c. lia. }
  symmetry. apply Z.div_unique with (Zpos m - sec * D).
  - left. split; [nia|]. nia.
  - ring.
Qed.

Lemma Seconds_trunc d :
  0 <= d < 2 ^ 23 * Time.Second -> Float64.trunc (Time.Seconds d) = Some (d / Time.Second).
Proof.
  intros Hd. unfold Time.Seconds, Float64.add, Float64.div.
  rewrite Z.quot_div_nonneg, Z.rem_mod_nonneg by (unfold Time.Second; lia).
  change (Float64.of_decimal false 1 9) with (Float64.of_Z Time.Second).
  pose proof (Z.mod_pos_bound d Time.Second ltac:(unfold Time.Second; lia)) as Hns.
  assert (0 <= d / Time.Second < 2 ^ 23) as Hs.
  { split; [apply Z.div_pos; unfold Time.Second; lia|].
    apply Z.div_lt_upper_bound; unfold Time.Second in *; lia. }
  set (sec := d / Time.Second) in *. set (nsec := d mod Time.Second) in *.
  destruct (Z.eq_dec nsec 0) as [->|Hns0].
  - change (SFdiv Float64.prec Float64.emax (Float64.of_Z 0) (Float64.of_Z Time.Second)) with (S754_zero false).
    destruct (Z.eq_dec sec 0) as [->|Hs0]; [reflexivity|].
    destruct (of_Z_spec sec) as (m & E & _); [lia|].
    pose proof (trunc_of_Z sec ltac:(lia)) as Ht. rewrite E in *. exact Ht.
  - destruct (div_Second_spec nsec) as (mq & xq & E & Hm & He & Hq); [lia|].
    rewrite E.
    assert (Zpos mq < 2 ^ (- xq)) as Hlt.
    { assert (2 ^ 53 <= 2 ^ (- xq)) by (apply Z.pow_le_mono_r; lia).
      unfold Time.Second in *. lia. }
    destruct (Z.eq_dec sec 0) as [->|Hs0].
    + change (Float64.of_Z 0) with (S754_zero false). cbn [SFadd Float64.trunc].
      destruct (Z.leb_spec 0 xq) as [H|_]; [lia|].
      rewrite Z.shiftr_div_pow2 by lia. f_equal. apply Z.div_small. lia.
    + apply trunc_add_fraction; [lia | exact Hm | lia | unfold Float64.emax, Float64.prec; lia | exact Hq].
Qed.

(* ===================================================================== *)
(** * Processing one record *)
(* ===================================================================== *)

Lemma field_value_fst i field :
  (field_value i field).1 = default Float64.zero (parsed field).
Proof. unfold field_value, parsed. by destruct (Strconv.ParseFloat _). Qed.

Lemma field_value_snd i field :
  (field_value i field).2 =
    match parsed field with Some _ => [] | None => [parse_warning i field] end.
Proof. unfold field_value, parsed. by destruct (Strconv.ParseFloat _). Qed.

Lemma store_Some values i v values' :
  store values i v = Some values' ->
  (i < length values)%nat /\ values' = <[i := v]> values.
Proof. unfold store. case_decide; naive_solver. Qed.

Lemma store_None values i v :
  store values i v = None -> (length values <= i)%nat.
Proof. unfold store. case_decide; [done | lia]. Qed.

Lemma zero_fraction : Float64.div Float64.zero (Float64.of_Z 100) = Float64.zero.
Proof. reflexivity. Qed.

Section RangeFields.

Variable debug : bool.

(** One step of the loop at an index past the timestamp. *)
Lemma range_fields_cons i field rest values log :
  i <> 0%nat ->
  range_fields debug i (field :: rest) values log =
    match store values (i - 1) (fraction field) with
    | None => IndexOutOfRange (i - 1) (length values) (log ++ (field_value i field).2)
    | Some values' =>
        range_fields debug (S i) rest values'
          (log ++ (field_value i field).2
               ++ (if debug then debug_line i (field_value i field).1 else []))
    end.
Proof.
  intros Hi. cbn [range_fields]. case_decide; [|done].
  unfold fraction. rewrite <- (field_value_fst i field).
  by destruct (field_value i field).
Qed.

(** The loop never changes the length of [values], writes field [j] of
    what is left at index [i - 1 + j] and nowhere else, and needs that
    index to be in range. *)
Lemma range_fields_Values fields : forall i values log values' log',
  i <> 0%nat -> (i - 1 <= length values)%nat ->
  range_fields debug i fields values log = Values values' log' ->
  length values' = length values /\
  (i - 1 + length fields <= length values)%nat /\
  (forall j field, fields !! j = Some field ->
     values' !! (i - 1 + j)%nat = Some (fraction field)) /\
  (forall k, (k < i - 1 \/ i - 1 + length fields <= k)%nat ->
     values' !! k = values !! k).
Proof.
  induction fields as [|field rest IH]; intros i values log values' log' Hi Hle H.
  - cbn in H. injection H as <- <-. cbn [length].
    split; [done|]. split; [lia|]. split; [|done].
    intros j field Hj. by rewrite lookup_nil in Hj.
  - rewrite range_fields_cons in H by done.
    destruct (store _ _ _) as [values1|] eqn:Hst; [|done].
    apply store_Some in Hst as [Hlt ->].
    apply IH in H as (Hlen & Hfit & Hset & Hkeep);
      [|lia|rewrite length_insert; lia].
    rewrite length_insert in Hlen, Hfit.
    replace (S i - 1)%nat with (S (i - 1)) in * by lia.
    cbn [length]. split; [done|]. split; [lia|]. split.
    + intros [|j] f Hj; cbn in Hj.
      * injection Hj as <-. rewrite Nat.add_0_r.
        rewrite Hkeep by lia. by apply list_lookup_insert_eq.
      * replace (i - 1 + S j)%nat with (S (i - 1) + j)%nat by lia. by apply Hset.
    + intros k Hk. rewrite Hkeep by lia. apply list_lookup_insert_ne. lia.
Qed.

(** The loop panics exactly when a field falls past the end of
    [values]; the index and the length are those of the failed store. *)
Lemma range_fields_fits fields : forall i values log,
  i <> 0%nat ->
  (i - 1 + length fields <= length values)%nat ->
  exists values' log', range_fields debug i fields values log = Values values' log'.
Proof.
  induction fields as [|field rest IH]; intros i values log Hi Hfit.
  - by exists values, log.
  - rewrite range_fields_cons by done. cbn [length] in Hfit.
    unfold store. case_decide; [|lia].
    apply IH; [lia|]. rewrite length_insert. lia.
Qed.

Lemma range_fields_overflows fields : forall i values log,
  i <> 0%nat ->
  (i - 1 <= length values < i - 1 + length fields)%nat ->
  exists log',
    range_fields debug i fields values log =
      IndexOutOfRange (length values) (length values) log'.
Proof.
  induction fields as [|field rest IH]; intros i values log Hi Hover.
  - cbn in Hover. lia.
  - rewrite range_fields_cons by done. cbn [length] in Hover.
    unfold store. case_decide as Hlt.
    + destruct (IH (S i) (<[(i - 1)%nat := fraction field]> values)
                  (log ++ (field_value i field).2
                       ++ (if debug then debug_line i (field_value i field).1 else [])))
        as [log' Hlog']; [lia | rewrite length_insert; lia |].
      rewrite length_insert in Hlog'. eauto.
    + replace (i - 1)%nat with (length values) by lia. eauto.
Qed.

(** What the loop logs: it keeps what was logged before, and adds the
    warning of every field that does not parse. *)
Lemma range_fields_log fields : forall i values log values' log',
  i <> 0%nat ->
  range_fields debug i fields values log = Values values' log' ->
  (forall l, In l log -> In l log') /\
  (forall j field, fields !! j = Some field -> parsed field = None ->
     In (parse_warning (i + j) field) log').
Proof.
  induction fields as [|field rest IH]; intros i values log values' log' Hi H.
  - cbn in H. injection H as <- <-. split; [done|].
    intros j field Hj. by rewrite lookup_nil in Hj.
  - rewrite range_fields_cons in H by done.
    destruct (store _ _ _) as [values1|]; [|done].
    apply IH in H as [Hold Hnew]; [|lia]. split.
    + intros l Hl. apply Hold. apply in_or_app. by left.
    + intros [|j] f Hj Hf; cbn in Hj.
      * injection Hj as <-. apply Hold. rewrite Nat.add_0_r.
        rewrite field_value_snd, Hf. apply in_or_app. right. by left.
      * replace (i + S j)%nat with (S i + j)%nat by lia. by apply Hnew.
Qed.

(** With [debug] off, only warnings are logged. *)
Lemma SystemStats_record_unfold ts data :
  SystemStats_record debug (ts :: data) = range_fields debug 1 data (make 4) [].
Proof. reflexivity. Qed.

Lemma SystemStats_record_nil : SystemStats_record debug [] = Values (make 4) [].
Proof. reflexivity. Qed.

End RangeFields.

(** ** The values of a record *)

Lemma make_lookup n k : (k < n)%nat -> make n !! k = Some Float64.zero.
Proof. intros Hk. unfold make. by apply lookup_replicate_2. Qed.

Lemma make_length n : length (make n) = n.
Proof. apply length_replicate. Qed.

(** When the processing of a record yields values: there are four of
    them, the record has at most five fields, field [k + 1] is stored at
    index [k], and the indices no field reaches keep their zero. *)
Lemma SystemStats_record_Values debug fields values log :
  SystemStats_record debug fields = Values values log ->
  length values = 4%nat /\
  (length fields <= 5)%nat /\
  (forall k field, fields !! S k = Some field -> values !! k = Some (fraction field)) /\
  (forall k, (length fields - 1 <= k < 4)%nat -> values !! k = Some Float64.zero).
Proof.
  destruct fields as [|ts data]; intros H.
  - rewrite SystemStats_record_nil in H. injection H as <- <-.
    split; [done|]. split; [cbn; lia|]. split.
    + intros k field Hk. by rewrite lookup_nil in Hk.
    + intros k Hk. apply make_lookup. lia.
  - rewrite SystemStats_record_unfold in H.
    apply range_fields_Values in H as (Hlen & Hfit & Hset & Hkeep);
      [|done|cbn; lia].
    rewrite make_length in Hlen, Hfit. cbn [length].
    split; [done|]. split; [cbn in Hfit; lia|]. split.
    + intros k field Hk. cbn in Hk. by apply (Hset k).
    + intros k Hk. rewrite Hkeep by (cbn in *; lia). apply make_lookup. lia.
Qed.

Lemma SystemStats_record_fits debug fields :
  (length fields <= 5)%nat ->
  exists values log, SystemStats_record debug fields = Values values log.
Proof.
  destruct fields as [|ts data]; intros Hlen.
  - by exists (make 4), [].
  - rewrite SystemStats_record_unfold. apply range_fields_fits; [done|].
    rewrite make_length. cbn in *. lia.
Qed.

Lemma SystemStats_record_overflows debug fields :
  (6 <= length fields)%nat ->
  exists log, SystemStats_record debug fields = IndexOutOfRange 4 4 log.
Proof.
  destruct fields as [|ts data]; intros Hlen; [cbn in Hlen; lia|].
  rewrite SystemStats_record_unfold.
  destruct (range_fields_overflows debug data 1 (make 4) []) as [log Hlog];
    [done | rewrite make_length; cbn in *; lia |].
  rewrite make_length in Hlog. eauto.
Qed.

Lemma SystemStats_record_warns debug fields values log i field :
  SystemStats_record debug fields = Values values log ->
  (1 <= i)%nat -> fields !! i = Some field -> parsed field = None ->
  In (parse_warning i field) log.
Proof.
  destruct fields as [|ts data]; intros H Hi Hf Hp; [by rewrite lookup_nil in Hf|].
  rewrite SystemStats_record_unfold in H.
  apply range_fields_log in H as [_ Hnew]; [|done].
  destruct i as [|i]; [lia|]. cbn in Hf.
  by apply (Hnew i field).
Qed.

(** ** The vectors sent on the results channel *)

Lemma SystemStats_select_results debug s values :
  In (SendResults values) (SystemStats_select debug s).1 -> length values = 4%nat.
Proof.
  destruct s as [fields| |]; cbn.
  - destruct (SystemStats_record debug fields) as [vs log|i n log] eqn:Hrec; cbn;
      intros [|Hin]; try done; apply in_app_or in Hin as [Hin|Hin].
    + apply in_map_iff in Hin as (l & Hl & _). done.
    + destruct Hin as [[= <-]|[]]. by apply SystemStats_record_Values in Hrec as [? _].
    + apply in_map_iff in Hin as (l & Hl & _). done.
    + by destruct Hin as [|[]].
  - intros [|[]]; done.
  - intros [|[|[|[]]]]; done.
Qed.

Lemma SystemStats_loop_results debug ss values :
  In (SendResults values) (SystemStats_loop debug ss).1 -> length values = 4%nat.
Proof.
  induction ss as [|s rest IH]; cbn; [done|].
  pose proof (SystemStats_select_results debug s values) as Hs.
  destruct (SystemStats_select debug s) as [trace e].
  destruct (SystemStats_loop debug rest) as [trace' e'].
  destruct e; cbn in *; [|done..].
  intros Hin. apply in_app_or in Hin as [|]; auto.
Qed.


(** ** Traces *)

Lemma count_app p l1 l2 : count p (l1 ++ l2) = (count p l1 + count p l2)%nat.
Proof. induction l1 as [|e l1 IH]; cbn; [done|]. rewrite IH. lia. Qed.

Lemma count_log p log :
  (forall l, p (LogLine l) = false) -> count p (map LogLine log) = 0%nat.
Proof. intros Hp. induction log as [|l log IH]; cbn; [done|]. by rewrite Hp, IH. Qed.

(** An occurrence of [x] in [l1 ++ l2] lies in [l2] when [l1] has none,
    and in [l1] when [l2] has none. *)
Lemma occurrence_right {A} (x : A) l1 : forall l2 before after,
  l1 ++ l2 = before ++ x :: after -> ~ In x l1 ->
  exists before', before = l1 ++ before' /\ l2 = before' ++ x :: after.
Proof.
  induction l1 as [|a l1 IH]; intros l2 before after Heq Hnot.
  - by exists before.
  - destruct before as [|b before]; cbn in Heq; injection Heq as -> Heq.
    + exfalso. apply Hnot. by left.
    + destruct (IH _ _ _ Heq) as (before' & -> & ->); [|by exists before'].
      intros Hin. apply Hnot. by right.
Qed.

Lemma occurrence_left {A} (x : A) l2 : forall before l1 after,
  l1 ++ l2 = before ++ x :: after -> ~ In x l2 ->
  exists after', l1 = before ++ x :: after' /\ after = after' ++ l2.
Proof.
  induction before as [|b before IH]; intros l1 after Heq Hnot.
  - destruct l1 as [|a l1]; cbn in Heq.
    + exfalso. apply Hnot. rewrite Heq. by left.
    + injection Heq as -> <-. by exists l1.
  - destruct l1 as [|a l1]; cbn in Heq.
    + exfalso. apply Hnot. rewrite Heq. right. apply in_elt.
    + injection Heq as -> Heq.
      destruct (IH _ _ Heq Hnot) as (after' & -> & ->). by exists after'.
Qed.

(** The events of the iteration of a record: the receive, the log, and
    one send or the panic. *)
Lemma SystemStats_select_record debug fields :
  exists log last_,
    (SystemStats_select debug (Received fields)).1
      = RecvRecord fields :: map LogLine log ++ [last_] /\
    (SystemStats_select debug (Received fields)).2 <> Returned /\
    ((exists values, last_ = SendResults values) \/ (exists i n, last_ = RuntimePanic i n)).
Proof.
  cbn. destruct (SystemStats_record debug fields) as [values log|i n log];
    exists log; eexists; (split; [reflexivity|]); (split; [done|]); eauto.
Qed.

Lemma not_in_record_iteration debug fields x :
  (forall fs, x <> RecvRecord fs) -> (forall l, x <> LogLine l) ->
  (forall values, x <> SendResults values) -> (forall i n, x <> RuntimePanic i n) ->
  ~ In x (SystemStats_select debug (Received fields)).1.
Proof.
  intros H1 H2 H3 H4.
  destruct (SystemStats_select_record debug fields) as (log & last_ & -> & _ & Hlast).
  intros [Hin|Hin]; [by apply (H1 fields)|].
  apply in_app_or in Hin as [Hin|[<-|[]]].
  - apply in_map_iff in Hin as (l & <- & _). by apply (H2 l).
  - destruct Hlast as [[values ->]|(i & n & ->)]; [by apply (H3 values) | by apply (H4 i n)].
Qed.

(** The loop after the iteration of [s]. *)
Lemma SystemStats_loop_cons debug s rest :
  SystemStats_loop debug (s :: rest) =
    match (SystemStats_select debug s).2 with
    | Running =>
        ((SystemStats_select debug s).1 ++ (SystemStats_loop debug rest).1,
         (SystemStats_loop debug rest).2)
    | _ => SystemStats_select debug s
    end.
Proof.
  cbn [SystemStats_loop]. destruct (SystemStats_select debug s) as [trace []];
    [by destruct (SystemStats_loop debug rest) | done..].
Qed.

(** While the loop is running, its trace goes on with that of what comes
    next. *)
Lemma SystemStats_loop_app debug ss1 ss2 :
  (SystemStats_loop debug ss1).2 = Running ->
  SystemStats_loop debug (ss1 ++ ss2)
    = ((SystemStats_loop debug ss1).1 ++ (SystemStats_loop debug ss2).1,
       (SystemStats_loop debug ss2).2).
Proof.
  induction ss1 as [|s ss1 IH]; intros Hrun.
  - cbn. by destruct (SystemStats_loop debug ss2).
  - cbn [app]. rewrite !SystemStats_loop_cons. rewrite SystemStats_loop_cons in Hrun.
    destruct (SystemStats_select debug s) as [trace e]. cbn [fst snd] in *.
    destruct e; [|done..]. cbn [fst snd] in *.
    rewrite (IH Hrun). cbn [fst snd]. by rewrite app_assoc.
Qed.

(** Once the loop has found the record channel closed it does nothing
    more, and returns. *)
Lemma SystemStats_loop_closed debug ss : forall before after,
  (SystemStats_loop debug ss).1 = before ++ RecvClosed :: after ->
  after = [] /\ (SystemStats_loop debug ss).2 = Returned.
Proof.
  induction ss as [|s rest IH]; intros before after Heq.
  - cbn in Heq. by destruct before.
  - rewrite SystemStats_loop_cons in *. destruct s as [fields| |].
    + pose proof (not_in_record_iteration debug fields RecvClosed) as Hnot.
      destruct (SystemStats_select debug (Received fields)) as [trace e] eqn:Hsel.
      cbn [fst snd] in *.
      assert (~ In RecvClosed trace) as Hnot' by (by apply Hnot).
      destruct e; cbn [fst snd] in *.
      * apply occurrence_right in Heq as (before' & _ & Heq); [|done]. by apply IH in Heq.
      * exfalso. apply Hnot'. rewrite Heq. apply in_elt.
      * exfalso. apply Hnot'. rewrite Heq. apply in_elt.
    + cbn in *. split; [|done].
      destruct before as [|b [|b' before]]; cbn in Heq; by injection Heq.
    + cbn [SystemStats_select fst snd] in *.
      apply occurrence_right in Heq as (before' & _ & Heq).
      * by apply IH in Heq.
      * intros [|[|[|[]]]]; done.
Qed.

(** Every expiry of the timer in the loop is that of a timer of ten
    seconds, followed at once by the stall line and one send on [quit]. *)
Lemma SystemStats_loop_timeout debug ss : forall before d after,
  (SystemStats_loop debug ss).1 = before ++ TimeAfter d :: after ->
  d = 10 * Time.Second /\ exists after', after = stall :: SendQuit true :: after'.
Proof.
  induction ss as [|s rest IH]; intros before d after Heq.
  - cbn in Heq. by destruct before.
  - rewrite SystemStats_loop_cons in Heq. destruct s as [fields| |].
    + pose proof (not_in_record_iteration debug fields (TimeAfter d)) as Hnot.
      destruct (SystemStats_select debug (Received fields)) as [trace e] eqn:Hsel.
      cbn [fst snd] in *.
      assert (~ In (TimeAfter d) trace) as Hnot' by (by apply Hnot).
      destruct e; cbn [fst snd] in *.
      * apply occurrence_right in Heq as (before' & _ & Heq); [|done]. by apply IH in Heq.
      * exfalso. apply Hnot'. rewrite Heq. apply in_elt.
      * exfalso. apply Hnot'. rewrite Heq. apply in_elt.
    + cbn in Heq. destruct before as [|b [|b' before]]; cbn in Heq; by injection Heq.
    + cbn [SystemStats_select fst snd app] in Heq.
      destruct before as [|b1 [|b2 [|b3 before]]]; cbn in Heq.
      * injection Heq as <- <-. split; [done|]. eauto.
      * by injection Heq.
      * by injection Heq.
      * injection Heq as _ _ _ Heq. by apply IH in Heq.
Qed.

(** The loop sends on [quit] as many times as the timer expired. *)
Lemma SystemStats_loop_cancels debug ss :
  count is_cancel (SystemStats_loop debug ss).1
    = count is_timeout (SystemStats_loop debug ss).1.
Proof.
  induction ss as [|s rest IH]; [done|].
  rewrite SystemStats_loop_cons.
  assert (count is_cancel (SystemStats_select debug s).1
            = count is_timeout (SystemStats_select debug s).1) as Hs.
  { destruct s as [fields| |]; [|done..].
    destruct (SystemStats_select_record debug fields) as (log & last_ & -> & _ & Hlast).
    cbn [count is_cancel is_timeout]. rewrite !count_app, !count_log by done.
    by destruct Hlast as [[values ->]|(i & n & ->)]. }
  destruct (SystemStats_select debug s).2; [|done..].
  cbn [fst]. rewrite !count_app. lia.
Qed.

(* ===================================================================== *)
(** * The properties of the specification *)
(* ===================================================================== *)

(** C1, with N the number of counters of the session, the four of
    lines 67-72: for every well-formed record of N + 1 fields the vector
    emitted has length exactly N, and its value at each position k < N
    is the parsed value of field k + 1 divided by 100. *)
Theorem SystemStats_record_well_formed debug fields :
  well_formed fields -> length fields = S (length counters) ->
  exists values log,
    SystemStats_record debug fields = Values values log /\
    length values = length counters /\
    (forall k, (k < length counters)%nat ->
       exists field v,
         fields !! S k = Some field /\ parsed field = Some v /\
         values !! k = Some (Float64.div v (Float64.of_Z 100))).
Proof.
  intros [_ Hwf] Hlen. cbn [counters length] in *.
  destruct (SystemStats_record_fits debug fields) as (values & log & Hrec); [lia|].
  exists values, log. split; [done|].
  apply SystemStats_record_Values in Hrec as (Hfour & _ & Hset & _).
  split; [done|]. intros k Hk.
  destruct (lookup_lt_is_Some_2 fields (S k)) as [field Hf]; [lia|].
  destruct (Hwf (S k) field) as [v Hv]; [lia|done|].
  exists field, v. split; [done|]. split; [done|].
  rewrite (Hset k field Hf). unfold fraction. by rewrite Hv.
Qed.

Lemma SystemStats_record_well_formed_witness :
  exists values log,
    SystemStats_record true
      [quoted "20231001120000.000"; quoted "45.2"; quoted "60.0"; quoted "0.0";
       quoted "12.5"] = Values values log /\
    length values = 4%nat /\
    values !! 1%nat = Some f0_600.
Proof.
  destruct (SystemStats_record_well_formed true
              [quoted "20231001120000.000"; quoted "45.2"; quoted "60.0"; quoted "0.0";
               quoted "12.5"])
    as (values & log & Hrec & Hlen & Hset).
  - split; [done|]. intros [|[|[|[|[|i]]]]] field Hi Hf; [lia | | | | | done];
      injection Hf as <-; vm_compute; eauto.
  - reflexivity.
  - exists values, log. split; [done|]. split; [done|].
    destruct (Hset 1%nat) as (field & v & Hf & Hv & ->); [cbn; lia|].
    injection Hf as <-. vm_compute in Hv. injection Hv as <-. reflexivity.
Defined.

(** The constants of the examples, bit for bit: mantissa and exponent of
    the float64 nearest to each decimal. *)
Lemma example_constants :
  f0_452 = S754_finite false 8142508126285857 (-54) /\
  f0_600 = S754_finite false 5404319552844595 (-53) /\
  f0_000 = S754_zero false /\
  f0_125 = S754_finite false 4503599627370496 (-55) /\
  Float64.of_decimal false 5 (-1) = S754_finite false 4503599627370496 (-53).
Proof. repeat split; vm_compute; reflexivity. Qed.

(** C2: the sample line, split as [typeperf] splits it and processed as
    [SystemStats] processes a record, yields [0.452, 0.600, 0.000, 0.125];
    the same as events of the two goroutines: the counter source started
    on the four counters sends the split line, and the aggregator that
    receives it sends that vector after the priming one. *)
Theorem sample_line_round_trip :
  record_of_line sample_line
    = [quoted "20231001120000.000"; quoted "45.2"; quoted "60.0"; quoted "0.0"; quoted "12.5"] /\
  (forall debug, exists log,
     SystemStats_record debug (record_of_line sample_line)
       = Values [f0_452; f0_600; f0_000; f0_125] log) /\
  (forall interval,
     In (SendRecord (record_of_line sample_line))
        (typeperf interval counters (printing [sample_line])).1) /\
  (forall uint_unrepresentable interval,
     exists go,
       (SystemStats false uint_unrepresentable interval [Received (record_of_line sample_line)]).1
         = [go; SendResults (make 4); RecvRecord (record_of_line sample_line);
            SendResults [f0_452; f0_600; f0_000; f0_125]]).
Proof.
  split; [vm_compute; reflexivity|]. split; [|split].
  - intros [|]; eexists; vm_compute; reflexivity.
  - intros interval. cbn. do 6 right. by left.
  - intros u interval. eexists. unfold SystemStats.
    set (loop := SystemStats_loop _ _). vm_compute in loop. subst loop.
    reflexivity.
Qed.


(** C3: for every record the aggregator emits a vector for (those of at
    most five fields), a field after the timestamp that fails to parse
    leaves exactly 0.0 at its position and a warning naming its index in
    the log; every other position holds its own field's parsed value
    divided by 100, and is the same whatever text stands in the failing
    field. The record ["ts","abc","60.0","0.0","12.5"] yields
    [0.0, 0.600, 0.000, 0.125] and the warning of field 1. *)
Theorem parse_failure_isolated :
  (forall debug fields i bad,
     (length fields <= 5)%nat ->
     (1 <= i)%nat -> fields !! i = Some bad -> parsed bad = None ->
     exists values log,
       SystemStats_record debug fields = Values values log /\
       values !! (i - 1)%nat = Some Float64.zero /\
       (forall j field v,
          (1 <= j)%nat -> j <> i -> fields !! j = Some field -> parsed field = Some v ->
          values !! (j - 1)%nat = Some (Float64.div v (Float64.of_Z 100))) /\
       (forall other values' log',
          SystemStats_record debug (<[i := other]> fields) = Values values' log' ->
          forall k, k <> (i - 1)%nat -> values' !! k = values !! k) /\
       In (parse_warning i bad) log) /\
  (forall debug, exists log,
     SystemStats_record debug malformed_record
       = Values [Float64.zero; f0_600; f0_000; f0_125] log /\
     In (Printf ("Failed to parse field 1 in TypePerf data: '" +:+ quoted "abc"
                   +:+ "'" +:+ String LF EmptyString)) log) /\
  SystemStats_record false malformed_record
    = Values [Float64.zero; f0_600; f0_000; f0_125] [parse_warning 1 (quoted "abc")].
Proof.
  split; [|split].
  - intros debug fields i bad Hlen Hi Hbad Hnone.
    destruct (SystemStats_record_fits debug fields Hlen) as (values & log & Hrec).
    exists values, log. split; [done|].
    pose proof (SystemStats_record_warns _ _ _ _ _ _ Hrec Hi Hbad Hnone) as Hwarn.
    apply SystemStats_record_Values in Hrec as (Hfour & _ & Hset & Hkeep).
    destruct i as [|i]; [lia|]. replace (S i - 1)%nat with i by lia.
    split; [|split; [|split; [|done]]].
    + rewrite (Hset i bad Hbad). unfold fraction. rewrite Hnone. cbn [default].
      by rewrite zero_fraction.
    + intros [|j] field v Hj _ Hf Hv; [lia|]. replace (S j - 1)%nat with j by lia.
      rewrite (Hset j field Hf). unfold fraction. by rewrite Hv.
    + intros other values' log' Hrec' k Hk.
      apply SystemStats_record_Values in Hrec' as (Hfour' & _ & Hset' & Hkeep').
      rewrite length_insert in Hkeep'.
      destruct (decide (S k < length fields)%nat) as [Hin|Hout].
      * destruct (lookup_lt_is_Some_2 fields (S k) Hin) as [field Hfield].
        rewrite (Hset k field Hfield). apply Hset'.
        rewrite list_lookup_insert_ne by lia. done.
      * destruct (decide (k < 4)%nat) as [Hk4|Hk4].
        -- rewrite Hkeep, Hkeep' by lia. done.
        -- rewrite !lookup_ge_None_2 by lia. done.
  - intros [|]; eexists; (split; [vm_compute; reflexivity|]); vm_compute; tauto.
  - vm_compute. reflexivity.
Qed.

Lemma parse_failure_isolated_witness :
  exists values log,
    SystemStats_record false malformed_record = Values values log /\
    values !! 0%nat = Some Float64.zero /\
    In (parse_warning 1 (quoted "abc")) log.
Proof.
  destruct (proj1 parse_failure_isolated false malformed_record 1%nat (quoted "abc"))
    as (values & log & Hrec & Hzero & _ & _ & Hwarn);
    [cbn; lia | lia | reflexivity | vm_compute; reflexivity |].
  exists values, log. split; [exact Hrec|]. split; [exact Hzero | exact Hwarn].
Defined.

(** C9: field [i] of a record is stored at index [i - 1] of a vector of
    four values; the store is in range for every record of at most five
    fields, and a record of six fields or more ends in the panic of a
    store at index 4 into length 4: values come out only of records of
    at most five fields. *)
Theorem store_in_range_iff_at_most_five_fields debug fields :
  ((length fields <= 5)%nat ->
     exists values log,
       SystemStats_record debug fields = Values values log /\
       length values = 4%nat /\
       forall i field, (1 <= i)%nat -> fields !! i = Some field ->
         values !! (i - 1)%nat = Some (fraction field)) /\
  ((6 <= length fields)%nat ->
     exists log, SystemStats_record debug fields = IndexOutOfRange 4 4 log) /\
  (forall values log,
     SystemStats_record debug fields = Values values log -> (length fields <= 5)%nat).
Proof.
  split; [|split].
  - intros Hlen.
    destruct (SystemStats_record_fits debug fields Hlen) as (values & log & Hrec).
    exists values, log. split; [done|].
    apply SystemStats_record_Values in Hrec as (Hfour & _ & Hset & _).
    split; [done|]. intros [|i] field Hi Hf; [lia|].
    replace (S i - 1)%nat with i by lia. by apply Hset.
  - apply SystemStats_record_overflows.
  - intros values log Hrec. by apply SystemStats_record_Values in Hrec as (_ & ? & _).
Qed.

Lemma store_in_range_iff_at_most_five_fields_witness :
  (exists values log,
     SystemStats_record false malformed_record = Values values log /\ length values = 4%nat) /\
  (exists log,
     SystemStats_record false (malformed_record ++ [quoted "7.5"]) = IndexOutOfRange 4 4 log).
Proof.
  pose proof (store_in_range_iff_at_most_five_fields false malformed_record) as [Hfits _].
  pose proof (store_in_range_iff_at_most_five_fields false (malformed_record ++ [quoted "7.5"]))
    as (_ & Hpanics & _).
  split.
  - destruct Hfits as (values & log & Hrec & Hlen & _); [cbn; lia|]. eauto.
  - apply Hpanics. cbn. lia.
Defined.

(** C10: every vector sent on the results channel, the priming one and
    the one of each record, has length 4, whatever the number of fields
    of the record; the positions past the fields of a short record are
    0.0. *)
Theorem results_have_length_four debug uint_unrepresentable interval ss :
  (exists rest,
     (SystemStats debug uint_unrepresentable interval ss).1
       = GoTypeperf (uint uint_unrepresentable (Time.Seconds interval)) 5 counters
           :: SendResults (make 4) :: rest /\
     length (make 4) = 4%nat) /\
  (forall values,
     In (SendResults values) (SystemStats debug uint_unrepresentable interval ss).1 ->
     length values = 4%nat) /\
  (forall fields values log,
     SystemStats_record debug fields = Values values log ->
     length values = 4%nat /\
     forall k, (length fields - 1 <= k < 4)%nat -> values !! k = Some Float64.zero).
Proof.
  split; [|split].
  - unfold SystemStats. destruct (SystemStats_loop debug ss) as [trace e]. cbn. eauto.
  - intros values. unfold SystemStats.
    pose proof (SystemStats_loop_results debug ss values) as Hloop.
    destruct (SystemStats_loop debug ss) as [trace e]. cbn.
    intros [Heq|[Heq|Hin]]; [done | by injection Heq as <- |].
    apply in_app_or in Hin as [Hin|Hin]; [by apply Hloop|].
    destruct e; cbn in Hin; [destruct Hin | destruct Hin as [|[]]; done ..].
  - intros fields values log Hrec.
    by apply SystemStats_record_Values in Hrec as (? & _ & _ & ?).
Qed.

Lemma results_have_length_four_witness :
  length [Float64.of_decimal false 5 (-1); Float64.zero; Float64.zero; Float64.zero] = 4%nat.
Proof.
  apply (proj1 (proj2 (results_have_length_four false (fun _ => 0) Time.Second
    [Received [quoted "ts"; quoted "50"]; TimedOut; Received malformed_record]))).
  vm_compute. do 3 right. left. reflexivity.
Defined.

(** C4: whatever the interval and whatever happens afterwards, the
    aggregator starts the counter source and then sends the vector of
    four zeros on the results channel: that is its first send, and no
    receive from the record channel comes before it. *)
Theorem first_result_is_zero_vector debug uint_unrepresentable interval ss :
  exists rest,
    (SystemStats debug uint_unrepresentable interval ss).1
      = GoTypeperf (uint uint_unrepresentable (Time.Seconds interval)) 5 counters
          :: SendResults [Float64.zero; Float64.zero; Float64.zero; Float64.zero]
          :: rest.
Proof.
  unfold SystemStats. destruct (SystemStats_loop debug ss) as [trace e]. cbn. eauto.
Qed.


(** [n] expiries in a row: [n] sends on [quit]. *)
Lemma SystemStats_stalls debug uint_unrepresentable interval n :
  count is_cancel
    (SystemStats debug uint_unrepresentable interval (replicate n TimedOut)).1 = n.
Proof.
  unfold SystemStats.
  assert (count is_cancel (SystemStats_loop debug (replicate n TimedOut)).1 = n /\
          (SystemStats_loop debug (replicate n TimedOut)).2 = Running) as [Hn He].
  { induction n as [|n [IHn IHe]]; [done|].
    cbn [replicate]. rewrite SystemStats_loop_cons. cbn [SystemStats_select fst snd].
    rewrite count_app, IHn. done. }
  destruct (SystemStats_loop debug (replicate n TimedOut)) as [trace e].
  cbn [fst snd] in *. subst e. cbn [app count is_cancel SystemStats_deferred].
  rewrite count_app, Hn. cbn. lia.
Qed.

(** C7: when the aggregator finds the record channel closed, its next
    and last event is the closing of the results channel: it returns,
    and sends no further vector. It does so at the first closure that its
    loop comes to, whatever would have followed. *)
Theorem closure_closes_results debug uint_unrepresentable interval :
  (forall ss before after,
     (SystemStats debug uint_unrepresentable interval ss).1 = before ++ RecvClosed :: after ->
     after = [CloseResults] /\
     (SystemStats debug uint_unrepresentable interval ss).2 = Returned /\
     (forall values, ~ In (SendResults values) after)) /\
  (forall ss1 ss2,
     (SystemStats debug uint_unrepresentable interval ss1).2 = Running ->
     SystemStats debug uint_unrepresentable interval (ss1 ++ Closed :: ss2)
       = ((SystemStats debug uint_unrepresentable interval ss1).1
            ++ [RecvClosed; CloseResults], Returned)).
Proof.
  split.
  - intros ss before after. unfold SystemStats.
    pose proof (SystemStats_loop_closed debug ss) as Hloop.
    destruct (SystemStats_loop debug ss) as [trace e]. cbn [fst snd] in *.
    intros Heq.
    apply (occurrence_right RecvClosed [_; _]) in Heq as (before' & _ & Heq);
      [|intros [|[|[]]]; done].
    apply occurrence_left in Heq as (after' & Heq & ->);
      [|destruct e; cbn; intros Hin; [destruct Hin | destruct Hin as [|[]]; done ..]].
    apply Hloop in Heq as [-> ->]. cbn.
    split; [done|]. split; [done|]. intros values [|[]]; done.
  - intros ss1 ss2. unfold SystemStats.
    pose proof (SystemStats_loop_app debug ss1 (Closed :: ss2)) as Happ.
    destruct (SystemStats_loop debug ss1) as [trace e]. cbn [fst snd] in *.
    intros ->. rewrite Happ by done. cbn [SystemStats_loop SystemStats_select fst snd].
    cbn [SystemStats_deferred]. by rewrite !app_nil_r, <- !app_assoc.
Qed.

Lemma closure_closes_results_witness :
  (SystemStats false (fun _ => 0) Time.Second [Received malformed_record; Closed; TimedOut]).2
    = Returned.
Proof.
  eapply (proj1 (closure_closes_results false (fun _ => 0) Time.Second)
            [Received malformed_record; Closed; TimedOut]
            [GoTypeperf 1 5 counters; SendResults (make 4);
             RecvRecord malformed_record;
             LogLine (parse_warning 1 (quoted "abc"));
             SendResults [Float64.zero; f0_600; f0_000; f0_125]]
            [CloseResults]).
  vm_compute. reflexivity.
Defined.

(** C8: every time the ten-second timer of the [select] expires (no
    record and no closure came first), the aggregator logs the stall and
    then sends one value on [quit]; it sends on [quit] at no other
    time, so once per expiry: [n] expiries in a row make [n] sends. *)
Theorem timeout_cancels_once debug uint_unrepresentable interval ss :
  (forall before d after,
     (SystemStats debug uint_unrepresentable interval ss).1 = before ++ TimeAfter d :: after ->
     d = 10 * Time.Second /\
     exists after', after = stall :: SendQuit true :: after') /\
  count is_cancel (SystemStats debug uint_unrepresentable interval ss).1
    = count is_timeout (SystemStats debug uint_unrepresentable interval ss).1 /\
  (forall n,
     count is_cancel
       (SystemStats debug uint_unrepresentable interval (replicate n TimedOut)).1 = n).
Proof.
  cut ((forall before d after,
          (SystemStats debug uint_unrepresentable interval ss).1
            = before ++ TimeAfter d :: after ->
          d = 10 * Time.Second /\
          exists after', after = stall :: SendQuit true :: after') /\
       count is_cancel (SystemStats debug uint_unrepresentable interval ss).1
         = count is_timeout (SystemStats debug uint_unrepresentable interval ss).1).
  { intros [Hafter Hcount]. split; [done|]. split; [done|].
    apply SystemStats_stalls. }
  unfold SystemStats.
  pose proof (SystemStats_loop_timeout debug ss) as Hloop.
  pose proof (SystemStats_loop_cancels debug ss) as Hcount.
  destruct (SystemStats_loop debug ss) as [trace e]. cbn [fst snd] in *.
  assert (forall x, (x = CloseResults -> False) -> ~ In x (SystemStats_deferred e)) as Hdef.
  { intros x Hx. destruct e; cbn; intros Hin;
      [destruct Hin | destruct Hin as [<-|[]]; by apply Hx ..]. }
  split.
  - intros before d after Heq.
    apply (occurrence_right (TimeAfter d) [_; _]) in Heq as (before' & _ & Heq);
      [|intros [|[|[]]]; done].
    apply occurrence_left in Heq as (after' & Heq & ->); [|by apply Hdef].
    apply Hloop in Heq as [-> [after'' ->]]. split; [done|]. eauto.
  - cbn [app count is_cancel is_timeout]. rewrite !count_app, Hcount.
    by destruct e.
Qed.

Lemma timeout_cancels_once_witness :
  10 * Time.Second = 10000000000 /\
  count is_cancel
    (SystemStats false (fun _ => 0) Time.Second [TimedOut; Received malformed_record; TimedOut]).1
    = 2%nat.
Proof.
  destruct (timeout_cancels_once false (fun _ => 0) Time.Second
              [TimedOut; Received malformed_record; TimedOut]) as (Hafter & Hcount & _).
  destruct (Hafter [GoTypeperf 1 5 counters; SendResults (make 4)] 10000000000
              [stall; SendQuit true; RecvRecord malformed_record;
               LogLine (parse_warning 1 (quoted "abc"));
               SendResults [Float64.zero; f0_600; f0_000; f0_125];
               TimeAfter 10000000000; stall; SendQuit true]) as [Hd _];
    [vm_compute; reflexivity|].
  split; [done|]. rewrite Hcount. vm_compute. reflexivity.
Defined.

(** C6: when [cmd.StdoutPipe()] or [cmd.Start()] fails, the counter
    source logs the error, sends no record, closes the record channel as
    its last event and returns, having made one command and at most one
    attempt to start it; the aggregator that then finds the channel
    closed ends the session after the priming vector alone. *)
Theorem typeperf_startup_failure interval fields env :
  is_Some (stdout_pipe_err env) \/ is_Some (start_err env) ->
  (typeperf interval fields env).2 = Returned /\
  count is_record (typeperf interval fields env).1 = 0%nat /\
  last (typeperf interval fields env).1 = Some CloseRecords /\
  count is_close_records (typeperf interval fields env).1 = 1%nat /\
  count is_command (typeperf interval fields env).1 = 1%nat /\
  (count is_start (typeperf interval fields env).1 <= 1)%nat /\
  (exists l, In (LogLine l) (typeperf interval fields env).1) /\
  (forall debug uint_unrepresentable d,
     SystemStats debug uint_unrepresentable d [Closed]
       = ([GoTypeperf (uint uint_unrepresentable (Time.Seconds d)) 5 counters;
           SendResults (make 4); RecvClosed; CloseResults], Returned)).
Proof.
  intros Hfail. unfold typeperf.
  destruct (stdout_pipe_err env) as [err|].
  - cbn. repeat split; try done; try lia. eexists. right. right. by left.
  - destruct Hfail as [[? [=]]|[err Herr]]. rewrite Herr.
    cbn. repeat split; try done; try lia. eexists. do 3 right. by left.
Qed.

Lemma typeperf_startup_failure_witness :
  (typeperf 1 counters (Subprocess None (Some (Error "file not found")) [] None)).2 = Returned /\
  count is_record
    (typeperf 1 counters (Subprocess (Some (Error "pipe")) None [] None)).1 = 0%nat.
Proof.
  split.
  - apply (typeperf_startup_failure 1 counters
             (Subprocess None (Some (Error "file not found")) [] None)).
    right. cbn. eauto.
  - apply (typeperf_startup_failure 1 counters
             (Subprocess (Some (Error "pipe")) None [] None)).
    left. cbn. eauto.
Defined.

(** The interval handed to [typeperf]: the whole seconds of the
    duration, the fraction dropped. *)
Lemma uint_Seconds uint_unrepresentable d :
  0 <= d < 2 ^ 23 * Time.Second ->
  uint uint_unrepresentable (Time.Seconds d) = d / Time.Second.
Proof.
  intros Hd. unfold uint, uint_of_float64. rewrite (Seconds_trunc d Hd).
  assert (0 <= d / Time.Second < 2 ^ 23) as [Hlo Hhi].
  { split; [apply Z.div_pos; unfold Time.Second; lia|].
    apply Z.div_lt_upper_bound; unfold Time.Second in *; lia. }
  assert (d / Time.Second < 2 ^ uint_bits) as Hhi'.
  { change (2 ^ uint_bits) with 18446744073709551616.
    change (2 ^ 23) with 8388608 in Hhi. lia. }
  apply Z.leb_le in Hlo. apply Z.ltb_lt in Hhi'. rewrite Hlo, Hhi'. reflexivity.
Qed.

(** C5: for every interval from 0 to [2 ^ 23] seconds the argument after
    ["-si"] is the number of whole seconds of the interval with the
    fraction dropped, not the interval rounded to whole seconds: at
    1.5 s and at 1.9 s it is ["1"], where the rounded interval is 2. *)
Theorem interval_argument_truncated :
  (forall uint_unrepresentable d,
     0 <= d < 2 ^ 23 * Time.Second ->
     typeperf_args (uint uint_unrepresentable (Time.Seconds d)) counters
       = counters ++ ["-si"; Strconv.Itoa (d / Time.Second)] /\
     exists rest,
       (SystemStats false uint_unrepresentable d []).1
         = GoTypeperf (d / Time.Second) 5 counters :: rest) /\
  Strconv.Itoa (1500 * Time.Millisecond / Time.Second) = "1" /\
  Strconv.Itoa (rounded_seconds (1500 * Time.Millisecond)) = "2" /\
  Strconv.Itoa (1900 * Time.Millisecond / Time.Second) = "1" /\
  Strconv.Itoa (rounded_seconds (1900 * Time.Millisecond)) = "2".
Proof.
  split; [|repeat split; vm_compute; reflexivity].
  intros u d Hd. split.
  - rewrite (uint_Seconds u d Hd). unfold typeperf_args, int_of_uint.
    assert (d / Time.Second < 2 ^ (uint_bits - 1)) as Hlt.
    { apply Z.div_lt_upper_bound; [unfold Time.Second; lia|].
      change (2 ^ (uint_bits - 1)) with 9223372036854775808.
      change (2 ^ 23) with 8388608 in Hd. unfold Time.Second in *. lia. }
    apply Z.ltb_lt in Hlt. rewrite Hlt. by rewrite <- app_assoc.
  - eexists. unfold SystemStats. cbn [SystemStats_loop app fst].
    rewrite (uint_Seconds u d Hd). reflexivity.
Qed.

Lemma interval_argument_truncated_witness :
  typeperf_args (uint (fun _ => 0) (Time.Seconds (1500 * Time.Millisecond))) counters
    = counters ++ ["-si"; "1"].
Proof.
  destruct (proj1 interval_argument_truncated (fun _ => 0) (1500 * Time.Millisecond))
    as [Hargs _]; [vm_compute; split; [discriminate | reflexivity]|].
  exact Hargs.
Defined.

(* ===================================================================== *)
(** * Further properties: the split of a line (line 56) *)
(* ===================================================================== *)

Lemma append_cons a s t : String a s +:+ t = String a (s +:+ t).
Proof. reflexivity. Qed.

Lemma append_nil t : EmptyString +:+ t = t.
Proof. reflexivity. Qed.

Lemma string_app_length s t :
  String.length (s +:+ t) = (String.length s + String.length t)%nat.
Proof.
  induction s as [|a s IH]; [done|].
  rewrite append_cons. cbn [String.length]. by rewrite IH.
Qed.

Lemma TrimSuffix_app s suffix : Strings.TrimSuffix (s +:+ suffix) suffix = s.
Proof.
  induction s as [|a s IH].
  - rewrite append_nil. destruct suffix as [|b suffix]; cbn; [done|].
    by rewrite Ascii.eqb_refl, String.eqb_refl.
  - rewrite append_cons. cbn [Strings.TrimSuffix].
    destruct (String.eqb_spec (String a (s +:+ suffix)) suffix) as [Heq|_].
    + exfalso. apply (f_equal String.length) in Heq.
      cbn [String.length] in Heq. rewrite string_app_length in Heq. lia.
    + by rewrite IH.
Qed.

Lemma TrimSuffix_none s suffix :
  (forall prefix, s <> prefix +:+ suffix) -> Strings.TrimSuffix s suffix = s.
Proof.
  induction s as [|a s IH]; intros Hnot.
  - cbn [Strings.TrimSuffix].
    by destruct (String.eqb_spec EmptyString suffix).
  - cbn [Strings.TrimSuffix].
    destruct (String.eqb_spec (String a s) suffix) as [Heq|_].
    + exfalso. by apply (Hnot EmptyString).
    + rewrite IH; [done|]. intros prefix ->. by apply (Hnot (String a prefix)).
Qed.

Lemma Split_cons a s sep :
  Strings.Split (String a s) sep =
    if Ascii.eqb a sep then EmptyString :: Strings.Split s sep
    else match Strings.Split s sep with
         | piece :: pieces => String a piece :: pieces
         | [] => [String a EmptyString]
         end.
Proof. reflexivity. Qed.

Lemma Split_not_nil s sep : Strings.Split s sep <> [].
Proof.
  destruct s as [|a s]; [done|]. rewrite Split_cons.
  destruct (Ascii.eqb a sep); [done|]. by destruct (Strings.Split s sep).
Qed.

Lemma Split_length s sep :
  length (Strings.Split s sep) = S (occurrences sep s).
Proof.
  induction s as [|a s IH]; [done|]. rewrite Split_cons. cbn [occurrences].
  destruct (Ascii.eqb a sep); cbn [length]; [by rewrite IH|].
  destruct (Strings.Split s sep); cbn in *; lia.
Qed.

Lemma Join_cons field field' rest sep :
  Join (field :: field' :: rest) sep = field +:+ sep +:+ Join (field' :: rest) sep.
Proof. reflexivity. Qed.

Lemma Split_Join s sep :
  Join (Strings.Split s sep) (String sep EmptyString) = s.
Proof.
  induction s as [|a s IH]; [done|]. rewrite Split_cons.
  pose proof (Split_not_nil s sep) as Hne.
  destruct (Ascii.eqb_spec a sep) as [->|_].
  - destruct (Strings.Split s sep) as [|piece pieces] eqn:Hs; [done|].
    by rewrite Join_cons, IH, append_nil, append_cons, append_nil.
  - destruct (Strings.Split s sep) as [|piece [|piece' pieces]] eqn:Hs; [done| |].
    + cbn [Join] in *. by rewrite IH.
    + rewrite Join_cons in *. by rewrite append_cons, IH.
Qed.

Lemma Split_no_separator s sep :
  Forall (fun piece => occurrences sep piece = 0%nat) (Strings.Split s sep).
Proof.
  induction s as [|a s IH]; [by repeat constructor|]. rewrite Split_cons.
  destruct (Ascii.eqb a sep) eqn:Ha; [by constructor|].
  destruct (Strings.Split s sep) as [|piece pieces].
  - repeat constructor. cbn. by rewrite Ha.
  - inversion IH as [|? ? Hpiece Hpieces]; subst. constructor; [|done].
    cbn. by rewrite Ha.
Qed.

(** X1: a line with its terminator is split without loss: the terminator
    is dropped, the fields joined by commas give the line back, there is
    one field more than the line has commas, and no field holds a
    comma. *)
Theorem record_of_line_round_trip line :
  Join (record_of_line (line +:+ crlf)) "," = line /\
  length (record_of_line (line +:+ crlf)) = S (occurrences "," line) /\
  Forall (fun field => occurrences "," field = 0%nat) (record_of_line (line +:+ crlf)).
Proof.
  unfold record_of_line. rewrite TrimSuffix_app.
  split; [apply Split_Join|]. split; [apply Split_length | apply Split_no_separator].
Qed.

(** X2: only a final carriage return and line feed is dropped: a line
    that does not end in them is split as it is, so that the fields
    joined by commas give back every byte of it. *)
Theorem record_of_line_unterminated line :
  (forall prefix, line <> prefix +:+ crlf) ->
  record_of_line line = Strings.Split line "," /\
  Join (record_of_line line) "," = line.
Proof.
  intros Hnot. unfold record_of_line. rewrite (TrimSuffix_none _ _ Hnot).
  split; [done | apply Split_Join].
Qed.

Lemma record_of_line_unterminated_witness :
  Join (record_of_line ("1,2" +:+ String LF EmptyString)) ","
    = "1,2" +:+ String LF EmptyString.
Proof.
  apply (record_of_line_unterminated ("1,2" +:+ String LF EmptyString)).
  intros prefix Heq.
  pose proof (f_equal (fun s => Strings.TrimSuffix s crlf) Heq) as Hprefix.
  cbv beta in Hprefix. rewrite TrimSuffix_app in Hprefix. subst prefix.
  vm_compute in Heq. discriminate.
Defined.

(* ===================================================================== *)
(** * Further properties: the values of a record (lines 83-106) *)
(* ===================================================================== *)

Lemma TrimLeft_cons c s : Strings.TrimLeft (String c s) c = Strings.TrimLeft s c.
Proof. cbn. by rewrite Ascii.eqb_refl. Qed.

Lemma TrimLeft_snoc c s :
  Strings.TrimLeft (s +:+ String c EmptyString) c =
    match Strings.TrimLeft s c with
    | EmptyString => EmptyString
    | t => t +:+ String c EmptyString
    end.
Proof.
  induction s as [|a s IH].
  - rewrite append_nil. by rewrite TrimLeft_cons.
  - rewrite append_cons. cbn [Strings.TrimLeft].
    destruct (Ascii.eqb a c); [exact IH | by rewrite append_cons].
Qed.

Lemma TrimRight_snoc c s :
  Strings.TrimRight (s +:+ String c EmptyString) c = Strings.TrimRight s c.
Proof.
  induction s as [|a s IH].
  - rewrite append_nil. cbn. by rewrite Ascii.eqb_refl.
  - rewrite append_cons. cbn [Strings.TrimRight]. by rewrite IH.
Qed.

Lemma unquote_quoted s : unquote (quoted s) = unquote s.
Proof.
  unfold unquote, quoted. rewrite TrimLeft_cons, TrimLeft_snoc.
  destruct (Strings.TrimLeft s dquote) as [|a t]; [done|].
  apply TrimRight_snoc.
Qed.

(** The values of a record of at most five fields, in closed form. *)
Lemma SystemStats_record_vector debug fields values log :
  SystemStats_record debug fields = Values values log -> values = vector_of fields.
Proof.
  intros Hrec.
  apply SystemStats_record_Values in Hrec as (Hfour & Hlen & Hset & Hkeep).
  apply list_eq. intros k. unfold vector_of.
  assert (length (tail fields) = (length fields - 1)%nat) as Htail
    by (destruct fields; cbn; lia).
  destruct (decide (k < 4)%nat) as [Hk|Hk].
  - rewrite lookup_take_lt by done.
    destruct (decide (k < length (tail fields))%nat) as [Hin|Hout].
    + rewrite lookup_app_l by (by rewrite length_fmap).
      rewrite list_lookup_fmap.
      destruct (lookup_lt_is_Some_2 (tail fields) k Hin) as [field Hfield].
      rewrite Hfield. cbn. apply Hset. by destruct fields.
    + rewrite lookup_app_r by (rewrite length_fmap; lia).
      rewrite Hkeep by lia. symmetry. apply make_lookup.
      rewrite length_fmap. lia.
  - rewrite lookup_take_ge by lia. apply lookup_ge_None_2. lia.
Qed.

(** X3: the values of a record of at most five fields are the fractions
    of its fields after the timestamp, in order, followed by zeros, four
    in all; the timestamp has no part in them. *)
Theorem SystemStats_record_closed_form debug fields :
  (length fields <= 5)%nat ->
  (exists log, SystemStats_record debug fields = Values (vector_of fields) log) /\
  (forall ts, vector_of (ts :: tail fields) = vector_of fields).
Proof.
  intros Hlen. split; [|done].
  destruct (SystemStats_record_fits debug fields Hlen) as (values & log & Hrec).
  exists log. by rewrite <- (SystemStats_record_vector _ _ _ _ Hrec).
Qed.

Lemma SystemStats_record_closed_form_witness :
  exists log,
    SystemStats_record true [quoted "ts"; quoted "45.2"; "x"] =
      Values [f0_452; Float64.zero; Float64.zero; Float64.zero] log.
Proof.
  destruct (SystemStats_record_closed_form true [quoted "ts"; quoted "45.2"; "x"])
    as [[log Hlog] _]; [cbn; lia|].
  exists log. exact Hlog.
Defined.

(** X4: the quotes around a field are optional, and all of them are
    stripped: a field and the same field between one more pair of quotes
    parse alike, so a record whose fields are quoted once more has the
    same values. *)
Theorem quotes_are_optional :
  (forall field, parsed (quoted field) = parsed field) /\
  (forall ts data, vector_of (ts :: (quoted <$> data)) = vector_of (ts :: data)) /\
  (forall debug ts data values log,
     SystemStats_record debug (ts :: data) = Values values log ->
     exists log',
       SystemStats_record debug (ts :: (quoted <$> data)) = Values values log').
Proof.
  assert (forall field, parsed (quoted field) = parsed field) as Hparsed.
  { intros field. unfold parsed. by rewrite unquote_quoted. }
  assert (forall ts data, vector_of (ts :: (quoted <$> data)) = vector_of (ts :: data))
    as Hvector.
  { intros ts data. unfold vector_of. cbn [tail]. f_equal. f_equal.
    rewrite <- list_fmap_compose. apply list_fmap_ext. intros _ field _.
    unfold compose, fraction. by rewrite Hparsed. }
  split; [done|]. split; [done|].
  intros debug ts data values log Hrec.
  pose proof (SystemStats_record_vector _ _ _ _ Hrec) as ->.
  apply SystemStats_record_Values in Hrec as (_ & Hlen & _).
  destruct (SystemStats_record_fits debug (ts :: (quoted <$> data))) as (v & log' & Hrec').
  { cbn [length] in *. by rewrite length_fmap. }
  exists log'. rewrite Hrec'. f_equal.
  rewrite (SystemStats_record_vector _ _ _ _ Hrec'). apply Hvector.
Qed.

Lemma quotes_are_optional_witness :
  exists log',
    SystemStats_record false [quoted "ts"; quoted (quoted "45.2")] =
      Values [f0_452; Float64.zero; Float64.zero; Float64.zero] log'.
Proof.
  apply (proj2 (proj2 quotes_are_optional) false (quoted "ts") [quoted "45.2"]
           [f0_452; Float64.zero; Float64.zero; Float64.zero] []).
  vm_compute. reflexivity.
Defined.

(** ** What a record logs (lines 86-103) *)

(** Without [debug], the loop adds to the log the warnings of the fields
    that do not parse, and nothing else. *)
Lemma range_fields_warnings fields : forall i values log values' log' l,
  i <> 0%nat ->
  range_fields false i fields values log = Values values' log' ->
  In l log' <->
    In l log \/
    exists j field,
      fields !! j = Some field /\ parsed field = None /\ l = parse_warning (i + j) field.
Proof.
  induction fields as [|field rest IH]; intros i values log values' log' l Hi H.
  - cbn in H. injection H as <- <-. split; [by left|].
    intros [Hin|(j & field & Hj & _)]; [done|]. by rewrite lookup_nil in Hj.
  - rewrite range_fields_cons in H by done.
    destruct (store _ _ _) as [values1|]; [|done].
    rewrite (IH (S i) _ _ _ _ l (Nat.neq_succ_0 i) H). rewrite app_nil_r, in_app_iff.
    rewrite field_value_snd. split.
    + intros [[Hin|Hin]|(j & f & Hj & Hf & ->)].
      * by left.
      * right. exists 0%nat, field. destruct (parsed field) eqn:Hp; [done|].
        destruct Hin as [<-|[]]. by rewrite Nat.add_0_r.
      * right. exists (S j), f. split; [done|]. split; [done|]. f_equal. lia.
    + intros [Hin|([|j] & f & Hj & Hf & ->)].
      * left. by left.
      * cbn in Hj. injection Hj as <-. left. right. rewrite Hf, Nat.add_0_r. by left.
      * right. exists j, f. split; [done|]. split; [done|]. f_equal. lia.
Qed.

(** Without [debug], the loop adds to the log one warning for each field
    that does not parse, in the order of the fields. *)
Lemma range_fields_warnings_from fields : forall i values log values' log',
  i <> 0%nat ->
  range_fields false i fields values log = Values values' log' ->
  log' = log ++ warnings_from i fields.
Proof.
  induction fields as [|field rest IH]; intros i values log values' log' Hi H.
  - cbn in H. injection H as <- <-. by rewrite app_nil_r.
  - rewrite range_fields_cons in H by done.
    destruct (store _ _ _) as [values1|]; [|done].
    rewrite (IH (S i) _ _ _ _ (Nat.neq_succ_0 i) H).
    rewrite field_value_snd, app_nil_r. cbn [warnings_from].
    destruct (parsed field); [by rewrite app_nil_r | by rewrite <- app_assoc].
Qed.

(** X5: with [debug] off, a record of at most five fields gives its
    vector and logs exactly the warnings of its fields after the
    timestamp that do not parse: one for each, in the order of the
    fields, with the index and the text of the field, and nothing else;
    a record whose fields all parse logs nothing. *)
Theorem warnings_are_the_log fields :
  (length fields <= 5)%nat ->
  SystemStats_record false fields = Values (vector_of fields) (warnings_of fields) /\
  (forall l, In l (warnings_of fields) <->
     exists i field,
       (1 <= i)%nat /\ fields !! i = Some field /\ parsed field = None /\
       l = parse_warning i field) /\
  ((forall i field, (1 <= i)%nat -> fields !! i = Some field -> is_Some (parsed field)) ->
   warnings_of fields = []).
Proof.
  intros Hlen.
  destruct (SystemStats_record_fits false fields Hlen) as (values & log & Hrec).
  pose proof (SystemStats_record_vector _ _ _ _ Hrec) as ->.
  assert (log = warnings_of fields) as ->.
  { destruct fields as [|ts data].
    - rewrite SystemStats_record_nil in Hrec. by inversion Hrec.
    - rewrite SystemStats_record_unfold in Hrec.
      by rewrite (range_fields_warnings_from data 1 _ _ _ _ (Nat.neq_succ_0 0) Hrec). }
  split; [done|].
  assert (forall l, In l (warnings_of fields) <->
     exists i field,
       (1 <= i)%nat /\ fields !! i = Some field /\ parsed field = None /\
       l = parse_warning i field) as Hlog.
  { intros l. destruct fields as [|ts data].
    - split; [done|]. intros (i & field & _ & Hf & _). by rewrite lookup_nil in Hf.
    - rewrite SystemStats_record_unfold in Hrec.
      rewrite (range_fields_warnings data 1 _ _ _ _ l (Nat.neq_succ_0 0) Hrec). split.
      + intros [[]|(j & field & Hj & Hf & ->)]. exists (S j), field.
        repeat split; [lia | done | done].
      + intros ([|i] & field & Hi & Hj & Hf & ->); [lia|].
        right. by exists i, field. }
  split; [exact Hlog|]. intros Hall.
  destruct (warnings_of fields) as [|l log']; [done|]. exfalso.
  destruct (proj1 (Hlog l) ltac:(by left)) as (i & field & Hi & Hf & Hnone & _).
  destruct (Hall i field Hi Hf) as [v Hv]. congruence.
Qed.

Lemma warnings_are_the_log_witness :
  SystemStats_record false malformed_record =
    Values (vector_of malformed_record) (warnings_of malformed_record) /\
  warnings_of malformed_record = [parse_warning 1 (quoted "abc")].
Proof.
  split; [|vm_compute; reflexivity].
  apply (warnings_are_the_log malformed_record). cbn. lia.
Defined.

Lemma debug_line_label i value label :
  debug_label i = Some label ->
  debug_line i value = [Println [LogStr label; LogFloat value]].
Proof. destruct i as [|[|[|[|[|i]]]]]; cbn; intros [= <-]; reflexivity. Qed.

Lemma range_fields_debug fields : forall i values log values' log' j field label,
  i <> 0%nat ->
  range_fields true i fields values log = Values values' log' ->
  fields !! j = Some field -> debug_label (i + j) = Some label ->
  In (Println [LogStr label; LogFloat (default Float64.zero (parsed field))]) log'.
Proof.
  induction fields as [|f rest IH];
    intros i values log values' log' j field label Hi H Hj Hlabel.
  - by rewrite lookup_nil in Hj.
  - rewrite range_fields_cons in H by done.
    destruct (store _ _ _) as [values1|]; [|done].
    destruct j as [|j]; cbn in Hj.
    + injection Hj as ->. rewrite Nat.add_0_r in Hlabel.
      apply range_fields_log in H as [Hold _]; [|lia]. apply Hold.
      rewrite (debug_line_label _ _ _ Hlabel), field_value_fst.
      rewrite !in_app_iff. right. right. by left.
    + apply (IH (S i) _ _ _ _ j field label (Nat.neq_succ_0 i) H Hj).
      by replace (S i + j)%nat with (i + S j)%nat by lia.
Qed.

(** X6: with [debug] on, a record logs for each of its fields 1 to 4 a
    line with the label of the field (CPU, Mem, Swap, Disk) and the
    percentage as parsed (0 if it does not parse), which is 100 times
    the value stored. *)
Theorem debug_lines_are_logged fields values log i field label :
  SystemStats_record true fields = Values values log ->
  fields !! i = Some field -> debug_label i = Some label ->
  In (Println [LogStr label; LogFloat (default Float64.zero (parsed field))]) log /\
  values !! (i - 1)%nat
    = Some (Float64.div (default Float64.zero (parsed field)) (Float64.of_Z 100)).
Proof.
  intros Hrec Hf Hlabel.
  destruct i as [|i]; [done|].
  destruct fields as [|ts data]; [by rewrite lookup_nil in Hf|]. cbn in Hf.
  split.
  - rewrite SystemStats_record_unfold in Hrec.
    by apply (range_fields_debug data 1 _ _ _ _ i field label (Nat.neq_succ_0 0) Hrec Hf).
  - apply SystemStats_record_Values in Hrec as (_ & _ & Hset & _).
    replace (S i - 1)%nat with i by lia. by apply (Hset i field).
Qed.

Lemma debug_lines_are_logged_witness :
  exists log,
    In (Println [LogStr "Mem%: "; LogFloat (Float64.of_decimal false 600 (-1))]) log.
Proof.
  destruct (SystemStats_record_fits true malformed_record) as (values & log & Hrec);
    [cbn; lia|].
  exists log.
  apply (debug_lines_are_logged malformed_record values log 2 (quoted "60.0") "Mem%: "
           Hrec eq_refl eq_refl).
Defined.

(** ** The aggregator's results (lines 63-112) *)

Lemma sent_results_app l1 l2 :
  sent_results (l1 ++ l2) = sent_results l1 ++ sent_results l2.
Proof.
  induction l1 as [|e l1 IH]; [done|]. destruct e; cbn; by rewrite ?IH.
Qed.

Lemma sent_results_log log : sent_results (map LogLine log) = [].
Proof. by induction log. Qed.

(** The iteration of a record: its vector when it fits, the panic
    otherwise, whatever [debug] is. *)
Lemma SystemStats_select_fits debug fields :
  (length fields <= 5)%nat ->
  exists log,
    SystemStats_select debug (Received fields)
      = (RecvRecord fields :: map LogLine log ++ [SendResults (vector_of fields)], Running).
Proof.
  intros Hlen. cbn.
  destruct (SystemStats_record_fits debug fields Hlen) as (values & log & Hrec).
  rewrite Hrec, (SystemStats_record_vector _ _ _ _ Hrec). by exists log.
Qed.

Lemma SystemStats_select_overflows debug fields :
  (6 <= length fields)%nat ->
  exists log,
    SystemStats_select debug (Received fields)
      = (RecvRecord fields :: map LogLine log ++ [RuntimePanic 4 4], Panicked).
Proof.
  intros Hlen. cbn.
  destruct (SystemStats_record_overflows debug fields Hlen) as (log & ->). by exists log.
Qed.

Lemma SystemStats_select_sent debug s :
  sent_results (SystemStats_select debug s).1 =
    match s with
    | Received fields => if decide (length fields <= 5)%nat then [vector_of fields] else []
    | _ => []
    end /\
  (SystemStats_select debug s).2 =
    match s with
    | Received fields => if decide (length fields <= 5)%nat then Running else Panicked
    | Closed => Returned
    | TimedOut => Running
    end.
Proof.
  destruct s as [fields| |]; [|done..]. case_decide as Hlen.
  - destruct (SystemStats_select_fits debug fields Hlen) as [log ->].
    cbn [fst snd sent_results]. by rewrite sent_results_app, sent_results_log.
  - destruct (SystemStats_select_overflows debug fields ltac:(lia)) as [log ->].
    cbn [fst snd sent_results]. by rewrite sent_results_app, sent_results_log.
Qed.

Lemma SystemStats_loop_sent debug ss :
  Forall fits ss ->
  sent_results (SystemStats_loop debug ss).1 = vector_of <$> records_until_closed ss /\
  (SystemStats_loop debug ss).2 <> Panicked.
Proof.
  induction ss as [|s rest IH]; intros Hfits; [done|].
  inversion Hfits as [|? ? Hs Hrest]; subst. specialize (IH Hrest) as [IHsent IHexit].
  rewrite SystemStats_loop_cons.
  destruct (SystemStats_select_sent debug s) as [Hsent Hexit].
  destruct s as [fields| |]; cbn [fits] in Hs; cbn beta iota in Hsent, Hexit.
  - rewrite decide_True in Hsent by done. rewrite decide_True in Hexit by done.
    rewrite Hexit. cbn [fst snd].
    by rewrite sent_results_app, Hsent, IHsent.
  - by rewrite Hexit.
  - rewrite Hexit. cbn [fst snd]. by rewrite sent_results_app, Hsent, IHsent.
Qed.

(** X7: when every record received has at most five fields, the vectors
    sent on the results channel are the priming vector and then one
    vector for each record received before the closure, in the order of
    arrival; an expiry of the timer sends none, and nothing is sent for
    what comes after the closure. *)
Theorem one_vector_per_record debug uint_unrepresentable interval ss :
  Forall fits ss ->
  sent_results (SystemStats debug uint_unrepresentable interval ss).1
    = make 4 :: (vector_of <$> records_until_closed ss) /\
  (SystemStats debug uint_unrepresentable interval ss).2 <> Panicked.
Proof.
  intros Hfits. unfold SystemStats.
  destruct (SystemStats_loop_sent debug ss Hfits) as [Hsent Hexit].
  destruct (SystemStats_loop debug ss) as [trace e]. cbn [fst snd] in *.
  split; [|done]. cbn [app sent_results]. rewrite sent_results_app, Hsent.
  destruct e; cbn; by rewrite app_nil_r.
Qed.

Lemma one_vector_per_record_witness :
  sent_results
    (SystemStats true (fun _ => 0) Time.Second
       [Received malformed_record; TimedOut; Received [quoted "ts"]; Closed;
        Received malformed_record]).1
    = [make 4; vector_of malformed_record; vector_of [quoted "ts"]].
Proof.
  apply (one_vector_per_record true (fun _ => 0) Time.Second
           [Received malformed_record; TimedOut; Received [quoted "ts"]; Closed;
            Received malformed_record]).
  repeat constructor; cbn; lia.
Defined.

(** X8: the [debug] flag changes what is logged and nothing else: with
    it on or off the aggregator sends the same vectors and ends the same
    way. *)
Theorem debug_changes_only_the_log uint_unrepresentable interval ss :
  sent_results (SystemStats true uint_unrepresentable interval ss).1
    = sent_results (SystemStats false uint_unrepresentable interval ss).1 /\
  (SystemStats true uint_unrepresentable interval ss).2
    = (SystemStats false uint_unrepresentable interval ss).2 /\
  count is_cancel (SystemStats true uint_unrepresentable interval ss).1
    = count is_cancel (SystemStats false uint_unrepresentable interval ss).1.
Proof.
  assert (sent_results (SystemStats_loop true ss).1 = sent_results (SystemStats_loop false ss).1
          /\ (SystemStats_loop true ss).2 = (SystemStats_loop false ss).2
          /\ count is_cancel (SystemStats_loop true ss).1
             = count is_cancel (SystemStats_loop false ss).1) as (Hsent & Hexit & Hcancel).
  { induction ss as [|s rest (IH1 & IH2 & IH3)]; [done|].
    rewrite !SystemStats_loop_cons.
    destruct (SystemStats_select_sent true s) as [Hs1 He1].
    destruct (SystemStats_select_sent false s) as [Hs2 He2].
    assert (count is_cancel (SystemStats_select true s).1
              = count is_cancel (SystemStats_select false s).1) as Hc.
    { destruct s as [fields| |]; [|done..].
      destruct (SystemStats_select_record true fields) as (l1 & x1 & -> & _ & Hx1).
      destruct (SystemStats_select_record false fields) as (l2 & x2 & -> & _ & Hx2).
      cbn [count is_cancel]. rewrite !count_app, !count_log by done.
      destruct Hx1 as [[? ->]|(? & ? & ->)], Hx2 as [[? ->]|(? & ? & ->)]; done. }
    rewrite He1, He2.
    destruct s as [fields| |]; [case_decide|..]; cbn [fst snd];
      rewrite ?sent_results_app, ?count_app, ?Hs1, ?Hs2, ?Hc, ?IH1, ?IH3;
      repeat split; congruence. }
  unfold SystemStats.
  destruct (SystemStats_loop true ss) as [t1 e1], (SystemStats_loop false ss) as [t2 e2].
  cbn [fst snd] in *. subst e2.
  cbn [app sent_results count is_cancel]. by rewrite !sent_results_app, !count_app, Hsent, Hcancel.
Qed.

(** ** The end of the aggregator (lines 64, 80-82, 91) *)

Lemma count_close_results_select debug s :
  count is_close_results (SystemStats_select debug s).1 = 0%nat.
Proof.
  destruct s as [fields| |]; [|done..].
  destruct (SystemStats_select_record debug fields) as (log & x & -> & _ & Hx).
  cbn [count is_close_results]. rewrite count_app, count_log by done.
  by destruct Hx as [[? ->]|(? & ? & ->)].
Qed.

Lemma count_close_results_loop debug ss :
  count is_close_results (SystemStats_loop debug ss).1 = 0%nat.
Proof.
  induction ss as [|s rest IH]; [done|]. rewrite SystemStats_loop_cons.
  pose proof (count_close_results_select debug s) as Hs.
  destruct (SystemStats_select debug s).2; [|done..].
  cbn [fst]. by rewrite count_app, Hs, IH.
Qed.

(** X9: the results channel is closed exactly when the aggregator ends,
    by returning or by a panic: once, as its last event, so that nothing
    is sent on the channel after it is closed; while the aggregator runs
    the channel stays open. *)
Theorem results_closed_once_at_the_end debug uint_unrepresentable interval ss :
  match (SystemStats debug uint_unrepresentable interval ss).2 with
  | Running =>
      count is_close_results (SystemStats debug uint_unrepresentable interval ss).1 = 0%nat
  | _ =>
      exists before,
        (SystemStats debug uint_unrepresentable interval ss).1 = before ++ [CloseResults] /\
        count is_close_results before = 0%nat
  end.
Proof.
  unfold SystemStats. pose proof (count_close_results_loop debug ss) as Hloop.
  destruct (SystemStats_loop debug ss) as [trace e]. cbn [fst snd] in *.
  destruct e; cbn [SystemStats_deferred].
  - rewrite app_nil_r. cbn. done.
  - eexists (_ :: _ :: trace). split; [reflexivity|]. by cbn.
  - eexists (_ :: _ :: trace). split; [reflexivity|]. by cbn.
Qed.

(** X10: a record of six fields or more ends the aggregator: after the
    receive and what the first fields logged it panics on the store at
    index 4, closes the results channel, and sends no vector for the
    record nor for anything that would have followed. *)
Theorem wide_record_ends_the_session debug uint_unrepresentable interval ss1 fields ss2 :
  (SystemStats debug uint_unrepresentable interval ss1).2 = Running ->
  (6 <= length fields)%nat ->
  exists log,
    SystemStats debug uint_unrepresentable interval (ss1 ++ Received fields :: ss2)
      = ((SystemStats debug uint_unrepresentable interval ss1).1
           ++ RecvRecord fields :: map LogLine log ++ [RuntimePanic 4 4; CloseResults],
         Panicked) /\
    sent_results
      (SystemStats debug uint_unrepresentable interval (ss1 ++ Received fields :: ss2)).1
      = sent_results (SystemStats debug uint_unrepresentable interval ss1).1.
Proof.
  intros Hrun Hlen. unfold SystemStats in *.
  pose proof (SystemStats_loop_app debug ss1 (Received fields :: ss2)) as Happ.
  destruct (SystemStats_loop debug ss1) as [trace e]. cbn [fst snd] in *. subst e.
  rewrite Happ by done. rewrite SystemStats_loop_cons.
  destruct (SystemStats_select_overflows debug fields Hlen) as [log ->].
  cbn [fst snd SystemStats_deferred]. exists log.
  rewrite !app_nil_r. split.
  - f_equal. cbn [app]. do 2 f_equal. rewrite <- !app_assoc. f_equal.
    cbn [app]. f_equal. by rewrite <- app_assoc.
  - cbn [app sent_results]. rewrite !sent_results_app. cbn [sent_results].
    rewrite sent_results_app, sent_results_log. cbn. by rewrite !app_nil_r.
Qed.

Lemma wide_record_ends_the_session_witness :
  sent_results
    (SystemStats false (fun _ => 0) Time.Second
       ([Received malformed_record]
          ++ Received (malformed_record ++ [quoted "1"]) :: [Received malformed_record])).1
    = [make 4; vector_of malformed_record].
Proof.
  destruct (wide_record_ends_the_session false (fun _ => 0) Time.Second
              [Received malformed_record] (malformed_record ++ [quoted "1"])
              [Received malformed_record]) as (log & _ & Hsent);
    [vm_compute; reflexivity | cbn; lia |].
  rewrite Hsent. vm_compute. reflexivity.
Defined.

(* ===================================================================== *)
(** * Further properties: the counter source (lines 21-59) *)
(* ===================================================================== *)

Lemma pair_eta {A B} (p : A * B) : (p.1, p.2) = p.
Proof. by destruct p. Qed.

Lemma typeperf_loop_cons quit k line err rest :
  quit <> Some k ->
  typeperf_loop quit k ((line, err) :: rest) =
    match err with
    | Some err => ([ReadString line (Some err); read_error err], Returned)
    | None =>
        (ReadString line None :: SendRecord (record_of_line line)
           :: (typeperf_loop quit (S k) rest).1,
         (typeperf_loop quit (S k) rest).2)
    end.
Proof.
  intros Hquit. cbn [typeperf_loop]. case_decide; [done|].
  destruct err; [done|]. by destruct (typeperf_loop quit (S k) rest).
Qed.

Lemma typeperf_loop_quit k rs : typeperf_loop (Some k) k rs = ([RecvQuit], Returned).
Proof. destruct rs; cbn [typeperf_loop]; by case_decide. Qed.

Lemma typeperf_loop_nil quit k :
  quit <> Some k -> typeperf_loop quit k [] = ([], Running).
Proof. intros Hquit. cbn. by case_decide. Qed.

(** The loop over lines read without an error, as long as no value is
    ready on [quit]: each is read, split and sent, and the loop goes
    on. *)
Lemma typeperf_loop_lines quit lines : forall k rest,
  (forall j, (j < length lines)%nat -> quit <> Some (k + j)%nat) ->
  typeperf_loop quit k ((read_ok <$> lines) ++ rest) =
    (line_events lines ++ (typeperf_loop quit (k + length lines) rest).1,
     (typeperf_loop quit (k + length lines) rest).2).
Proof.
  induction lines as [|line lines IH]; intros k rest Hquit.
  - cbn [length fmap list_fmap app line_events flat_map]. rewrite Nat.add_0_r.
    by rewrite pair_eta.
  - cbn [fmap list_fmap app]. unfold read_ok at 1.
    rewrite typeperf_loop_cons.
    + rewrite IH.
      * cbn [fst snd length line_events flat_map app].
        by replace (S k + length lines)%nat with (k + S (length lines))%nat by lia.
      * intros j Hj. replace (S k + j)%nat with (k + S j)%nat by lia.
        apply Hquit. cbn. lia.
    + rewrite <- (Nat.add_0_r k). apply Hquit. cbn. lia.
Qed.

Lemma sent_records_app l1 l2 :
  sent_records (l1 ++ l2) = sent_records l1 ++ sent_records l2.
Proof.
  induction l1 as [|e l1 IH]; [done|]. destruct e; cbn; by rewrite ?IH.
Qed.

Lemma channel_app l1 l2 : channel (l1 ++ l2) = channel l1 ++ channel l2.
Proof.
  induction l1 as [|e l1 IH]; [done|]. destruct e; cbn; by rewrite ?IH.
Qed.

Lemma line_events_records lines :
  sent_records (line_events lines) = record_of_line <$> lines /\
  channel (line_events lines) = (fun line => Received (record_of_line line)) <$> lines /\
  count is_read (line_events lines) = length lines /\
  count is_kill (line_events lines) = 0%nat /\
  count is_close_records (line_events lines) = 0%nat.
Proof.
  induction lines as [|line lines (IH1 & IH2 & IH3 & IH4 & IH5)]; [done|].
  change (line_events (line :: lines))
    with (ReadString line None :: SendRecord (record_of_line line) :: line_events lines).
  cbn [sent_records channel count is_read is_kill is_close_records fmap list_fmap length].
  by rewrite IH1, IH2, IH3, IH4, IH5.
Qed.

(** What the loop sends, whatever it is given: the records of the lines
    read before the first error, or of the first of them when a value
    becomes ready on [quit]. *)
Lemma typeperf_loop_sent quit rs : forall k,
  sent_records (typeperf_loop quit k rs).1 =
    record_of_line <$>
      match quit with
      | Some q =>
          if decide (k <= q)%nat then take (q - k) (lines_before_error rs)
          else lines_before_error rs
      | None => lines_before_error rs
      end.
Proof.
  induction rs as [|[line err] rest IH]; intros k.
  - cbn [typeperf_loop lines_before_error]. case_decide.
    + subst quit. by rewrite decide_True, take_nil by lia.
    + destruct quit; [case_decide|]; by rewrite ?take_nil.
  - destruct (decide (quit = Some k)) as [->|Hquit].
    + rewrite typeperf_loop_quit, decide_True, Nat.sub_diag by lia. done.
    + rewrite typeperf_loop_cons by done. destruct err as [err|].
      * cbn [lines_before_error]. destruct quit; [case_decide|]; by rewrite ?take_nil.
      * cbn [fst sent_records lines_before_error]. rewrite IH.
        destruct quit as [q|]; [|done].
        destruct (decide (k <= q)%nat) as [Hle|Hgt].
        -- assert (k <> q) by congruence.
           rewrite decide_True by lia.
           replace (q - k)%nat with (S (q - S k)) by lia. done.
        -- rewrite decide_False by lia. done.
Qed.

Lemma typeperf_loop_cleanup quit rs : forall k,
  count is_kill (typeperf_loop quit k rs).1 = 0%nat /\
  count is_close_records (typeperf_loop quit k rs).1 = 0%nat /\
  count is_command (typeperf_loop quit k rs).1 = 0%nat /\
  (typeperf_loop quit k rs).2 <> Panicked.
Proof.
  induction rs as [|[line err] rest IH]; intros k.
  - cbn [typeperf_loop]. by case_decide.
  - destruct (decide (quit = Some k)) as [->|Hquit].
    + by rewrite typeperf_loop_quit.
    + rewrite typeperf_loop_cons by done. destruct err; [done|]. cbn. apply IH.
Qed.

(** The trace of a [typeperf] that got its subprocess started and read
    the two lines of the header. *)
Lemma typeperf_started interval fields env l1 e1 l2 e2 rest :
  started env = true -> reads env = (l1, e1) :: (l2, e2) :: rest ->
  typeperf interval fields env =
    ([ExecCommand "TypePerf" (typeperf_args interval fields); StdoutPipe None;
      CmdStart None; ReadString l1 e1; ReadString l2 e2]
       ++ (typeperf_loop (quit_at env) 0 rest).1
       ++ typeperf_deferred true (typeperf_loop (quit_at env) 0 rest).2,
     (typeperf_loop (quit_at env) 0 rest).2).
Proof.
  unfold started, typeperf. intros Hstarted ->.
  destruct (stdout_pipe_err env); [done|]. destruct (start_err env); [done|].
  by destruct (typeperf_loop (quit_at env) 0 rest).
Qed.

Lemma sent_records_deferred b e : sent_records (typeperf_deferred b e) = [].
Proof. by destruct e, b. Qed.

(** X11: the first two lines read are dropped, whatever they are; after
    them every line read gives one record, sent in the order of the
    reads and without any check of its fields, until a read fails or a
    value is ready on [quit]. *)
Theorem one_record_per_line interval fields env r1 r2 rest :
  started env = true -> reads env = r1 :: r2 :: rest ->
  sent_records (typeperf interval fields env).1 =
    record_of_line <$>
      match quit_at env with
      | Some q => take q (lines_before_error rest)
      | None => lines_before_error rest
      end.
Proof.
  intros Hstarted Hreads. destruct r1 as [l1 e1], r2 as [l2 e2].
  rewrite (typeperf_started _ _ _ _ _ _ _ _ Hstarted Hreads). cbn [fst].
  rewrite !sent_records_app, sent_records_deferred, app_nil_r. cbn [sent_records app].
  rewrite typeperf_loop_sent. destruct (quit_at env) as [q|]; [|done].
  by rewrite decide_True, Nat.sub_0_r by lia.
Qed.

Lemma one_record_per_line_witness :
  sent_records
    (typeperf 1 counters
       (Subprocess None None
          [("a,b", None); ("c", Some (Error "x")); ("1,2", None); ("3", None);
           ("4", Some (Error "EOF")); ("5", None)] None)).1
    = [["1"; "2"]; ["3"]].
Proof.
  rewrite (one_record_per_line 1 counters _ ("a,b", None) ("c", Some (Error "x"))
             [("1,2", None); ("3", None); ("4", Some (Error "EOF")); ("5", None)]);
    [vm_compute; reflexivity | reflexivity | reflexivity].
Defined.

(** X12: a value ready on [quit] is seen at the top of an iteration,
    before the read: after [n] lines read and sent the counter source
    receives it, reads no further line though more are there, kills the
    subprocess, closes the record channel and returns. The two reads of
    the header are done before any look at [quit]. *)
Theorem quit_stops_the_reads interval fields env r1 r2 lines more :
  started env = true ->
  reads env = r1 :: r2 :: (read_ok <$> lines) ++ more ->
  quit_at env = Some (length lines) ->
  typeperf interval fields env =
    ([ExecCommand "TypePerf" (typeperf_args interval fields); StdoutPipe None;
      CmdStart None; ReadString r1.1 r1.2; ReadString r2.1 r2.2]
       ++ line_events lines ++ [RecvQuit; ProcessKill; CloseRecords], Returned) /\
  count is_read (typeperf interval fields env).1 = (2 + length lines)%nat /\
  sent_records (typeperf interval fields env).1 = record_of_line <$> lines.
Proof.
  intros Hstarted Hreads Hquit. destruct r1 as [l1 e1], r2 as [l2 e2].
  assert (typeperf interval fields env =
    ([ExecCommand "TypePerf" (typeperf_args interval fields); StdoutPipe None;
      CmdStart None; ReadString l1 e1; ReadString l2 e2]
       ++ line_events lines ++ [RecvQuit; ProcessKill; CloseRecords], Returned)) as Heq.
  { rewrite (typeperf_started _ _ _ _ _ _ _ _ Hstarted Hreads), Hquit.
    rewrite typeperf_loop_lines by (intros j Hj; cbn; intros [=]; lia).
    cbn [Nat.add]. rewrite typeperf_loop_quit. cbn [fst snd typeperf_deferred].
    by rewrite <- app_assoc. }
  destruct (line_events_records lines) as (Hsent & _ & Hread & _).
  split; [done|]. rewrite Heq. cbn [fst]. split.
  - cbn [app count is_read]. rewrite count_app, Hread. cbn. lia.
  - cbn [app sent_records]. by rewrite sent_records_app, Hsent, app_nil_r.
Qed.

Lemma quit_stops_the_reads_witness :
  typeperf 1 counters
    (Subprocess None None
       [(crlf, None); ("header", None); ("1,2", None); ("3", None); ("4", None)]
       (Some 1%nat))
  = ([ExecCommand "TypePerf" (typeperf_args 1 counters); StdoutPipe None; CmdStart None;
      ReadString crlf None; ReadString "header" None;
      ReadString "1,2" None; SendRecord ["1"; "2"];
      RecvQuit; ProcessKill; CloseRecords], Returned).
Proof.
  apply (quit_stops_the_reads 1 counters
           (Subprocess None None
              [(crlf, None); ("header", None); ("1,2", None); ("3", None); ("4", None)]
              (Some 1%nat))
           (crlf, None) ("header", None) ["1,2"] [("3", None); ("4", None)]);
    reflexivity.
Defined.

(** X13: a read that fails ends the counter source: what was read with
    the error is not split and not sent, the error is logged, the
    subprocess is killed, the record channel is closed, and nothing that
    the subprocess printed afterwards is read. The lines before it were
    sent whole. *)
Theorem read_error_ends_the_source interval fields env r1 r2 lines partial err more :
  started env = true ->
  reads env = r1 :: r2 :: (read_ok <$> lines) ++ (partial, Some err) :: more ->
  (forall q, quit_at env = Some q -> (length lines < q)%nat) ->
  typeperf interval fields env =
    ([ExecCommand "TypePerf" (typeperf_args interval fields); StdoutPipe None;
      CmdStart None; ReadString r1.1 r1.2; ReadString r2.1 r2.2]
       ++ line_events lines
       ++ [ReadString partial (Some err); read_error err; ProcessKill; CloseRecords],
     Returned) /\
  sent_records (typeperf interval fields env).1 = record_of_line <$> lines.
Proof.
  intros Hstarted Hreads Hquit. destruct r1 as [l1 e1], r2 as [l2 e2].
  assert (typeperf interval fields env =
    ([ExecCommand "TypePerf" (typeperf_args interval fields); StdoutPipe None;
      CmdStart None; ReadString l1 e1; ReadString l2 e2]
       ++ line_events lines
       ++ [ReadString partial (Some err); read_error err; ProcessKill; CloseRecords],
     Returned)) as Heq.
  { rewrite (typeperf_started _ _ _ _ _ _ _ _ Hstarted Hreads).
    rewrite typeperf_loop_lines
      by (intros j Hj Hq; apply Hquit in Hq; cbn in Hq; lia).
    cbn [Nat.add]. rewrite typeperf_loop_cons
      by (intros Hq; apply Hquit in Hq; lia).
    cbn [fst snd typeperf_deferred]. by rewrite <- !app_assoc. }
  destruct (line_events_records lines) as (Hsent & _).
  split; [done|]. rewrite Heq. cbn [fst app sent_records].
  by rewrite sent_records_app, Hsent, app_nil_r.
Qed.

Lemma read_error_ends_the_source_witness :
  sent_records
    (typeperf 1 counters
       (Subprocess None None
          [(crlf, None); ("header", None); ("1,2", None); ("3,", Some (Error "EOF"));
           ("4", None)] None)).1
  = [["1"; "2"]].
Proof.
  apply (read_error_ends_the_source 1 counters
           (Subprocess None None
              [(crlf, None); ("header", None); ("1,2", None); ("3,", Some (Error "EOF"));
               ("4", None)] None)
           (crlf, None) ("header", None) ["1,2"] "3," (Error "EOF") [("4", None)]);
    [reflexivity | reflexivity | intros q [=]].
Defined.

(** X14: on every environment the counter source runs the command once
    and never panics; it closes the record channel exactly when it
    returns, once and as its last event, and kills the subprocess
    exactly when it returns after having started it, once and just
    before the closing. *)
Theorem typeperf_cleans_up interval fields env :
  (typeperf interval fields env).2 <> Panicked /\
  count is_command (typeperf interval fields env).1 = 1%nat /\
  match (typeperf interval fields env).2 with
  | Returned =>
      exists before,
        (typeperf interval fields env).1
          = before ++ (if started env then [ProcessKill; CloseRecords] else [CloseRecords]) /\
        count is_kill before = 0%nat /\ count is_close_records before = 0%nat
  | _ =>
      count is_kill (typeperf interval fields env).1 = 0%nat /\
      count is_close_records (typeperf interval fields env).1 = 0%nat
  end.
Proof.
  unfold typeperf, started.
  destruct (stdout_pipe_err env) as [err|].
  { split; [done|]. split; [done|]. cbn [snd fst typeperf_deferred].
    by eexists [_; _; _]. }
  destruct (start_err env) as [err|].
  { split; [done|]. split; [done|]. cbn [snd fst typeperf_deferred].
    by eexists [_; _; _; _]. }
  destruct (reads env) as [|[l1 e1] [|[l2 e2] rest]]; [done..|].
  destruct (typeperf_loop_cleanup (quit_at env) rest 0) as (Hkill & Hclose & Hcmd & Hexit).
  destruct (typeperf_loop (quit_at env) 0 rest) as [trace e]. cbn [fst snd] in *.
  split; [done|]. split.
  { cbn [app count is_command]. rewrite count_app, Hcmd. by destruct e. }
  destruct e; cbn [typeperf_deferred].
  - rewrite app_nil_r. cbn. done.
  - eexists (_ :: _ :: _ :: _ :: _ :: trace). split; [reflexivity|]. by cbn.
  - done.
Qed.

Lemma SystemStats_loop_records debug ss : forall records,
  Forall (fun record => (length record <= 5)%nat) records ->
  sent_results (SystemStats_loop debug ((Received <$> records) ++ Closed :: ss)).1
    = vector_of <$> records /\
  (SystemStats_loop debug ((Received <$> records) ++ Closed :: ss)).2 = Returned.
Proof.
  induction records as [|record records IH]; intros Hfits.
  - cbn [fmap list_fmap app]. by rewrite SystemStats_loop_cons.
  - inversion Hfits as [|? ? Hlen Hrest]; subst. specialize (IH Hrest) as [IHsent IHexit].
    cbn [fmap list_fmap app]. rewrite SystemStats_loop_cons.
    destruct (SystemStats_select_sent debug (Received record)) as [Hsent Hexit].
    rewrite decide_True in Hsent by done. rewrite decide_True in Hexit by done.
    rewrite Hexit. cbn [fst snd]. by rewrite sent_results_app, Hsent, IHsent.
Qed.

(** X15: the two goroutines together. When the subprocess starts, prints
    its two header lines and then lines of at most five fields, and a
    read then fails (the subprocess has ended), the record channel
    carries one record for each line and is then closed, and the
    aggregator, with no timer expiring, sends the zero vector and then
    one vector for each line, in order, and returns with the results
    channel closed. *)
Theorem source_feeds_aggregator debug uint_unrepresentable interval env r1 r2 lines
    partial err more :
  started env = true ->
  reads env = r1 :: r2 :: (read_ok <$> lines) ++ (partial, Some err) :: more ->
  quit_at env = None ->
  Forall (fun line => (length (record_of_line line) <= 5)%nat) lines ->
  let records :=
    channel (typeperf (uint uint_unrepresentable (Time.Seconds interval)) counters env).1 in
  records = ((fun line => Received (record_of_line line)) <$> lines) ++ [Closed] /\
  sent_results (SystemStats debug uint_unrepresentable interval records).1
    = make 4 :: ((fun line => vector_of (record_of_line line)) <$> lines) /\
  exists before,
    SystemStats debug uint_unrepresentable interval records
      = (before ++ [RecvClosed; CloseResults], Returned).
Proof.
  intros Hstarted Hreads Hquit Hfits records. destruct r1 as [l1 e1], r2 as [l2 e2].
  assert (records = ((fun line => Received (record_of_line line)) <$> lines) ++ [Closed])
    as Hrecords.
  { unfold records. rewrite (typeperf_started _ _ _ _ _ _ _ _ Hstarted Hreads), Hquit.
    rewrite typeperf_loop_lines by done. cbn [Nat.add].
    rewrite (typeperf_loop_cons None) by done. cbn [fst snd typeperf_deferred app channel].
    destruct (line_events_records lines) as (_ & Hchannel & _).
    rewrite !channel_app, Hchannel. unfold read_error. cbn [channel].
    by rewrite app_nil_r. }
  split; [done|]. rewrite Hrecords. clear records Hrecords.
  assert (Forall (fun record => (length record <= 5)%nat) (record_of_line <$> lines))
    as Hfits' by (by apply Forall_fmap).
  rewrite (list_fmap_compose record_of_line Received).
  destruct (SystemStats_loop_records debug [] _ Hfits') as [Hsent Hexit].
  pose proof (SystemStats_loop_closed debug ((Received <$> (record_of_line <$> lines)) ++ [Closed]))
    as Hclosed.
  unfold SystemStats.
  destruct (SystemStats_loop debug ((Received <$> (record_of_line <$> lines)) ++ [Closed]))
    as [trace e] eqn:Hloop.
  cbn [fst snd] in *. subst e. split.
  - cbn [app sent_results SystemStats_deferred]. rewrite sent_results_app, Hsent.
    cbn [sent_results]. rewrite app_nil_r. by rewrite <- list_fmap_compose.
  - assert (exists before, trace = before ++ [RecvClosed]) as [before ->].
    { pose proof (SystemStats_loop_app debug (Received <$> (record_of_line <$> lines)) [Closed])
        as Happ.
      assert ((SystemStats_loop debug (Received <$> (record_of_line <$> lines))).2 = Running)
        as Hrun.
      { clear -Hfits'. induction Hfits' as [|record rs Hlen _ IH]; [done|].
        cbn [fmap list_fmap]. rewrite SystemStats_loop_cons.
        destruct (SystemStats_select_sent debug (Received record)) as [_ Hexit].
        rewrite decide_True in Hexit by done. by rewrite Hexit. }
      specialize (Happ Hrun). rewrite Hloop in Happ. injection Happ as ->.
      by eexists. }
    eexists (_ :: _ :: before). cbn [app SystemStats_deferred].
    by rewrite <- app_assoc.
Qed.

Lemma source_feeds_aggregator_witness :
  sent_results
    (SystemStats false (fun _ => 0) Time.Second
       (channel
          (typeperf (uint (fun _ => 0) (Time.Seconds Time.Second)) counters
             (Subprocess None None
                [(crlf, None); ("header" +:+ crlf, None); (sample_line, None);
                 ("", Some (Error "EOF"))] None)).1)).1
  = [make 4; vector_of (record_of_line sample_line)].
Proof.
  apply (source_feeds_aggregator false (fun _ => 0) Time.Second
           (Subprocess None None
              [(crlf, None); ("header" +:+ crlf, None); (sample_line, None);
               ("", Some (Error "EOF"))] None)
           (crlf, None) ("header" +:+ crlf, None) [sample_line] "" (Error "EOF") []);
    [reflexivity | reflexivity | reflexivity |].
  repeat constructor.
Defined.
